(** * cta-model: the CTA-to-mesh pipeline scripts

    A shallow embedding of the five pipeline scripts

      convert.py  ->  segment.py  ->  filter.py  ->  generate_net.py
                  ->  optimize_net.py

    Each script is a Python process: it reads paths from stdin or argv,
    reads and writes files, may ask the operator on /dev/tty, prints
    artifact paths to stdout and ends with an exit status.  The scripts
    are embedded as computations in a state-and-exception monad over a
    process state (file store, terminal input, stdout).  Log records go
    to stderr and to project.log only; they are not part of the state.

    Python strings are embedded as [string] (characters are the code
    points below 256), Python ints as [Z], floats as [Q]. *)

From Stdlib Require Import ZArith QArith Ascii String DecimalString DecimalPos DecimalZ Sorted.
From stdpp Require Import gmap strings list.

Local Open Scope Z_scope.

(** ** Python string and path functions used by the scripts *)

Module PyStr.

(** [str.isspace] on one character. *)
Definition isspace (c : ascii) : bool :=
  let n := N_of_ascii c in
  ((9 <=? n) && (n <=? 13) || (28 <=? n) && (n <=? 32)
   || (n =? 133) || (n =? 160))%N.

(** [str.lower] on one character: A-Z, and the capital letters of the
    Latin-1 block (all of 192..222 but the multiplication sign). *)
Definition lower_char (c : ascii) : ascii :=
  let n := N_of_ascii c in
  if ((65 <=? n) && (n <=? 90)
      || (192 <=? n) && (n <=? 222) && negb (n =? 215))%N
  then ascii_of_N (n + 32) else c.

Fixpoint lower (s : string) : string :=
  match s with
  | EmptyString => EmptyString
  | String c s' => String (lower_char c) (lower s')
  end.

Fixpoint lstrip (s : string) : string :=
  match s with
  | EmptyString => EmptyString
  | String c s' => if isspace c then lstrip s' else s
  end.

(** A character is dropped from the right end exactly when it is
    white space and everything after it is dropped as well. *)
Fixpoint rstrip (s : string) : string :=
  match s with
  | EmptyString => EmptyString
  | String c s' =>
      match rstrip s' with
      | EmptyString => if isspace c then EmptyString else String c EmptyString
      | r => String c r
      end
  end.

(** [s.strip()] *)
Definition strip (s : string) : string := rstrip (lstrip s).

(** [s.startswith(t)] *)
Fixpoint startswith (t s : string) : bool :=
  match t, s with
  | EmptyString, _ => true
  | String a t', String b s' => Ascii.eqb a b && startswith t' s'
  | String _ _, EmptyString => false
  end.

(** [s.endswith(c)] for a one-character [c]. *)
Fixpoint endswith_char (c : ascii) (s : string) : bool :=
  match s with
  | EmptyString => false
  | String a EmptyString => Ascii.eqb a c
  | String _ s' => endswith_char c s'
  end.

(** [s.rfind(c)] for a one-character [c]: the last index of [c], or -1. *)
Fixpoint rfind (c : ascii) (s : string) : Z :=
  match s with
  | EmptyString => -1
  | String a s' =>
      let r := rfind c s' in
      if 0 <=? r then r + 1 else if Ascii.eqb a c then 0 else -1
  end.

(** [s[i:]] and [s[:i]] for [0 <= i]. *)
Fixpoint drop (i : nat) (s : string) : string :=
  match i, s with
  | O, _ => s
  | S i', String _ s' => drop i' s'
  | S _, EmptyString => EmptyString
  end.

Fixpoint take (i : nat) (s : string) : string :=
  match i, s with
  | O, _ => EmptyString
  | S i', String c s' => String c (take i' s')
  | S _, EmptyString => EmptyString
  end.

Definition slice_from (i : Z) (s : string) : string := drop (Z.to_nat i) s.
Definition slice_to (i : Z) (s : string) : string := take (Z.to_nat i) s.

(** [s.rstrip(c)] for a one-character [c]. *)
Fixpoint rstrip_char (c : ascii) (s : string) : string :=
  match s with
  | EmptyString => EmptyString
  | String a s' =>
      match rstrip_char c s' with
      | EmptyString => if Ascii.eqb a c then EmptyString else String a EmptyString
      | r => String a r
      end
  end.

Fixpoint all_char (c : ascii) (s : string) : bool :=
  match s with
  | EmptyString => true
  | String a s' => Ascii.eqb a c && all_char c s'
  end.

(** [s.replace(old, new)]: every occurrence of [old], left to right,
    without overlap.  [skip] counts the characters of a match that are
    still to be passed over. *)
Fixpoint replace_from (old new : string) (skip : nat) (s : string) : string :=
  match s with
  | EmptyString => EmptyString
  | String c s' =>
      match skip with
      | S k => replace_from old new k s'
      | O =>
          if startswith old s
          then new +:+ replace_from old new (String.length old - 1) s'
          else String c (replace_from old new O s')
      end
  end.

(** An empty [old] matches before every character and at the end. *)
Fixpoint intersperse (new s : string) : string :=
  match s with
  | EmptyString => new
  | String c s' => new +:+ String c (intersperse new s')
  end.

Definition replace (old new s : string) : string :=
  match old with
  | EmptyString => intersperse new s
  | _ => replace_from old new O s
  end.

(** [str(n)] / [f"{n}"] for an int. *)
Definition str_int (n : Z) : string := NilZero.string_of_int (Z.to_int n).

Definition sep : ascii := "/"%char.
Definition extsep : ascii := "."%char.

(** [os.path.basename] (posixpath). *)
Definition basename (p : string) : string :=
  let i := rfind sep p + 1 in
  slice_from i p.

(** [os.path.dirname] (posixpath). *)
Definition dirname (p : string) : string :=
  let i := rfind sep p + 1 in
  let head := slice_to i p in
  if negb (String.eqb head EmptyString) && negb (all_char sep head)
  then rstrip_char sep head else head.

(** [os.path.join(a, b)] (posixpath), two arguments. *)
Definition join (a b : string) : string :=
  if startswith (String sep EmptyString) b then b
  else if String.eqb a EmptyString || endswith_char sep a then a +:+ b
  else a +:+ String sep b.

(** The leading-dots scan of [genericpath._splitext]: walks
    [filenameIndex] up to [dotIndex] and answers whether some character
    before the last dot is not a dot. *)
Fixpoint has_stem (n : nat) (s : string) : bool :=
  match n, s with
  | O, _ => false
  | S n', String c s' => if Ascii.eqb c extsep then has_stem n' s' else true
  | S _, EmptyString => true
  end.

(** [os.path.splitext] (posixpath). *)
Definition splitext (p : string) : string * string :=
  let sepIndex := rfind sep p in
  let dotIndex := rfind extsep p in
  if (sepIndex <? dotIndex)
     && has_stem (Z.to_nat (dotIndex - (sepIndex + 1))) (slice_from (sepIndex + 1) p)
  then (slice_to dotIndex p, slice_from dotIndex p)
  else (p, EmptyString).

End PyStr.

(** ** Processes: results, state and the process monad *)

(** How a computation ends: with a value, with a raised exception that
    [except Exception] catches, or with [SystemExit], which it does not
    catch ([SystemExit] derives from [BaseException] only). *)
Inductive Res (A : Type) : Type :=
| Ok (a : A)
| Raise (e : string)
| SysExit (code : Z).

Arguments Ok {A} a.
Arguments Raise {A} e.
Arguments SysExit {A} code.

(** Triangle surface, as [vtkPolyData] holds it: points, triangles as
    point indices, and the normals once stage 6 has attached them. *)
Definition Point : Type := Q * Q * Q.
Definition Triangle : Type := nat * nat * nat.

Record PolyData : Type := mkPolyData {
  points : list Point;
  polys : list Triangle;
  normals : option (list Point)
}.

(** What a file holds.  A volume is its voxels in raster order. *)
Inductive File : Type :=
| LabelVolume (voxels : list Z)
| ScalarVolume (voxels : list Q)
| Surface (mesh : PolyData).

(** The part of the world a script acts on. *)
Record Process : Type := mkProcess {
  fs : gmap string File;        (* the files that exist, by path *)
  readonly : gset string;       (* paths at which a write fails *)
  tty : option (list string);   (* /dev/tty: lines still to be read, if it can be opened *)
  stdout : list string          (* lines printed so far *)
}.

Definition M (A : Type) : Type := Process -> Res A * Process.

Definition ret {A} (a : A) : M A := fun st => (Ok a, st).

Definition bind {A B} (m : M A) (k : A -> M B) : M B :=
  fun st =>
    match m st with
    | (Ok a, st') => k a st'
    | (Raise e, st') => (Raise e, st')
    | (SysExit c, st') => (SysExit c, st')
    end.

Notation "x <- m ;; k" := (bind m (fun x => k))
  (at level 100, m at next level, right associativity).
Notation "m ;;; k" := (bind m (fun _ => k))
  (at level 100, right associativity).

(** [raise e] and [sys.exit(code)]. *)
Definition raise {A} (e : string) : M A := fun st => (Raise e, st).
Definition sys_exit {A} (code : Z) : M A := fun st => (SysExit code, st).

(** [try: body  except Exception as e: handler(e)] *)
Definition try_except {A} (body : M A) (handler : string -> M A) : M A :=
  fun st =>
    match body st with
    | (Raise e, st') => handler e st'
    | r => r
    end.

(** The status the interpreter exits with. *)
Definition exit_status {A} (r : Res A) : Z :=
  match r with
  | Ok _ => 0
  | Raise _ => 1
  | SysExit c => c
  end.

(** [os.path.exists(p)] *)
Definition path_exists (p : string) : M bool :=
  fun st => (Ok (bool_decide (is_Some (fs st !! p))), st).

(** [print(line)] *)
Definition print (line : string) : M unit :=
  fun st => (Ok tt, mkProcess (fs st) (readonly st) (tty st) (stdout st ++ [line])).

(** Writing a file: raises where the path cannot be written, else the
    file holds the new content. *)
Definition write_file (p : string) (f : File) : M unit :=
  fun st =>
    if bool_decide (p ∈ readonly st) then (Raise "write failed", st)
    else (Ok tt, mkProcess (<[p := f]> (fs st)) (readonly st) (tty st) (stdout st)).

(** [with open('/dev/tty', 'r') as tty: tty.readline()]: raises when
    there is no terminal; at end of input the line is empty. *)
Definition tty_readline : M string :=
  fun st =>
    match tty st with
    | None => (Raise "cannot open /dev/tty", st)
    | Some [] => (Ok EmptyString, st)
    | Some (l :: ls) => (Ok l, mkProcess (fs st) (readonly st) (Some ls) (stdout st))
    end.

(** The overwrite prompt shared by convert.py and segment.py:
    [user_input = tty.readline().strip().lower()], and the test
    [user_input != 'y'] negated. *)
Definition confirm_overwrite : M bool :=
  line <- tty_readline ;;
  let user_input := PyStr.lower (PyStr.strip line) in
  ret (String.eqb user_input "y").

(** ** segment.py *)

Module Segment.

(** [sitk.Cast(image, sitk.sitkUInt16)] on one voxel: integer pixels
    wrap to 16 bits, real pixels are truncated toward zero first. *)
Definition cast_uint16 (v : Z) : Z := v mod 65536.
Definition truncate (q : Q) : Z := Z.quot (Qnum q) (Zpos (Qden q)).

(** [sitk.ReadImage], the cast and [sitk.GetArrayFromImage]. *)
Definition read_array (input_file : string) : M (list Z) :=
  fun st =>
    match fs st !! input_file with
    | Some (LabelVolume a) => (Ok (map cast_uint16 a), st)
    | Some (ScalarVolume a) => (Ok (map (fun q => cast_uint16 (truncate q)) a), st)
    | Some (Surface _) => (Raise "not an image", st)
    | None => (Raise "cannot read image", st)
    end.

(** [np.unique]: the distinct values, ascending. *)
Fixpoint insert_unique (x : Z) (l : list Z) : list Z :=
  match l with
  | [] => [x]
  | y :: l' =>
      if x <? y then x :: l
      else if x =? y then l
      else y :: insert_unique x l'
  end.

Definition np_unique (a : list Z) : list Z := foldr insert_unique [] a.

(** [itk.BinaryThresholdImageFilter] with lower and upper threshold,
    inside value and outside value. *)
Definition binary_threshold (lower upper inside outside : Z) (a : list Z) : list Z :=
  map (fun v => if (lower <=? v) && (v <=? upper) then inside else outside) a.

(** [np.sum] *)
Definition np_sum (a : list Z) : Z := foldr Z.add 0 a.

(** [range(lo, hi)] *)
Definition range (lo hi : Z) : list Z :=
  map (fun i => lo + Z.of_nat i) (seq 0 (Z.to_nat (hi - lo))).

Definition component_path (output_folder : string) (component_id : Z) : string :=
  PyStr.join output_folder ("Component" +:+ PyStr.str_int component_id +:+ ".mha").

(** The body of the [for component_id] loop with its [try]/[except]:
    the path appended to [components], if any.  [None] is the
    too-small branch and the [continue] of a declined overwrite. *)
Definition process_component (np_array : list Z) (output_folder : string)
    (component_size component_id : Z) : M (option string) :=
  try_except
    (let component_image := binary_threshold component_id component_id 1 0 np_array in
     let component_voxel_count := np_sum component_image in
     if component_size <=? component_voxel_count then
       let component_file := component_path output_folder component_id in
       present <- path_exists component_file ;;
       go <- (if present then confirm_overwrite else ret true) ;;
       if go then
         write_file component_file (LabelVolume component_image) ;;;
         ret (Some component_file)
       else ret None
     else ret None)
    (fun _ => sys_exit 1).

Fixpoint for_components (np_array : list Z) (output_folder : string)
    (component_size : Z) (ids : list Z) (components : list string) : M (list string) :=
  match ids with
  | [] => ret components
  | component_id :: ids' =>
      r <- process_component np_array output_folder component_size component_id ;;
      for_components np_array output_folder component_size ids'
        (match r with Some f => components ++ [f] | None => components end)
  end.

Fixpoint print_all (lines : list string) : M unit :=
  match lines with
  | [] => ret tt
  | l :: ls => print l ;;; print_all ls
  end.

Definition extract_connected_components (input_file output_folder : string)
    (component_size : Z) : M unit :=
  np_array <- try_except (read_array input_file) (fun _ => sys_exit 1) ;;
  let unique_values := np_unique np_array in
  let number_components := Z.of_nat (length unique_values) - 1 in
  if number_components =? 0 then sys_exit 1
  else
    components <- for_components np_array output_folder component_size
                    (range 1 (Z.of_nat (length unique_values) + 1)) [] ;;
    if 1 <=? Z.of_nat (length components) then print_all components
    else sys_exit 0.

(** The script: the input path is all of stdin, stripped. *)
Definition main (stdin output_folder : string) (component_size : Z) : M unit :=
  extract_connected_components (PyStr.strip stdin) output_folder component_size.

End Segment.

(** ** convert.py *)

Module Convert.

(** [sitk.ReadImage] *)
Definition read_image (p : string) : M File :=
  fun st =>
    match fs st !! p with
    | Some (Surface _) => (Raise "not an image", st)
    | Some f => (Ok f, st)
    | None => (Raise "cannot read image", st)
    end.

Definition convert_nii_to_mha (input_nii_path output_mha_path : string) : M unit :=
  let file_name := fst (PyStr.splitext (PyStr.basename input_nii_path)) in
  try_except
    (image <- read_image input_nii_path ;;
     let final_path := output_mha_path +:+ "/" +:+ file_name +:+ ".mha" in
     present <- path_exists final_path ;;
     (if present then
        go <- confirm_overwrite ;;
        if go then ret tt else sys_exit 0
      else ret tt) ;;;
     write_file final_path image ;;;
     print final_path)
    (fun _ => sys_exit 1).

End Convert.

(** ** The external toolkits (ITK, VTK)

    The filters the scripts call are library code.  Each one is a
    function of its parameters and its input that either yields an
    output or throws; a script is embedded over a record of them. *)

Inductive Exc (A : Type) : Type :=
| Done (a : A)
| Throws (e : string).

Arguments Done {A} a.
Arguments Throws {A} e.

Definition call {A} (x : Exc A) : M A :=
  fun st => match x with Done a => (Ok a, st) | Throws e => (Raise e, st) end.

Record Toolkit : Type := mkToolkit {
  (* itk.CurvatureAnisotropicDiffusionImageFilter: time step, conductance, iterations *)
  CurvatureAnisotropicDiffusion : Q -> Q -> Z -> list Q -> Exc (list Q);
  (* vtk.vtkContourFilter: contour value *)
  vtkContourFilter : Q -> list Q -> Exc PolyData;
  (* vtk.vtkCleanPolyData with point merging: tolerance *)
  vtkCleanPolyData : Q -> PolyData -> Exc PolyData;
  (* vtk.vtkConnectivityFilter, all regions: GetNumberOfExtractedRegions *)
  GetNumberOfExtractedRegions : PolyData -> Exc nat;
  (* vtk.vtkConnectivityFilter, specified region: region id *)
  ExtractSpecifiedRegion : nat -> PolyData -> Exc PolyData;
  (* vtk.vtkAppendPolyData over the inputs added *)
  vtkAppendPolyData : list PolyData -> Exc PolyData;
  (* vtk.vtkDecimatePro preserving topology: target reduction *)
  vtkDecimatePro : Q -> PolyData -> Exc PolyData;
  (* vtk.vtkSmoothPolyDataFilter without feature edges: iterations, relaxation *)
  vtkSmoothPolyDataFilter : Z -> Q -> PolyData -> Exc PolyData;
  (* vtk.vtkFillHolesFilter: hole size *)
  vtkFillHolesFilter : Z -> PolyData -> Exc PolyData;
  (* vtk.vtkPolyDataNormals: consistency on, auto-orient on, splitting off *)
  vtkPolyDataNormals : PolyData -> Exc PolyData
}.

(** Reading a volume as a float image ([itk.F] pixels). *)
Definition read_scalar_volume (p : string) : M (list Q) :=
  fun st =>
    match fs st !! p with
    | Some (LabelVolume a) => (Ok (map inject_Z a), st)
    | Some (ScalarVolume a) => (Ok a, st)
    | Some (Surface _) => (Raise "not an image", st)
    | None => (Raise "cannot read image", st)
    end.

(** [vtk.vtkPolyDataReader]; a failed read is taken to raise, which is
    what the scripts' handlers are written for. *)
Definition read_polydata (p : string) : M PolyData :=
  fun st =>
    match fs st !! p with
    | Some (Surface m) => (Ok m, st)
    | Some _ => (Raise "not a mesh", st)
    | None => (Raise "cannot read mesh", st)
    end.

(** [[line.strip() for line in sys.stdin]] *)
Definition read_lines (stdin : list string) : list string := map PyStr.strip stdin.

(** ** filter.py *)

Module Filter.
Section WithToolkit.
Variable T : Toolkit.

Definition smoothed_path (output_folder component_file : string) : string :=
PyStr.join output_folder
  (PyStr.replace ".mha" "_smoothed.mha" (PyStr.basename component_file)).

(** The body of the [for component_file] loop: both [try] blocks. *)
Definition filter_component (output_folder : string) (time_step conductance : Q)
  (iterations : Z) (component_file : string) : M unit :=
try_except
  (let output_file := smoothed_path output_folder component_file in
   image <- read_scalar_volume component_file ;;
   smoothed <- call (CurvatureAnisotropicDiffusion T time_step conductance iterations image) ;;
   write_file output_file (ScalarVolume smoothed))
  (fun _ => sys_exit 1) ;;;
try_except (print component_file) (fun _ => sys_exit 1).

Fixpoint for_files (body : string -> M unit) (files : list string) : M unit :=
match files with
| [] => ret tt
| f :: files' => body f ;;; for_files body files'
end.

Definition anisotropic_diffusion_filtering (component_files : list string)
  (output_folder : string) (time_step conductance : Q) (iterations : Z) : M unit :=
if Nat.eqb (length component_files) 0 then sys_exit 1
else for_files (filter_component output_folder time_step conductance iterations)
       component_files.

Definition main (stdin : list string) (output_folder : string)
  (time_step conductance : Q) (iterations : Z) : M unit :=
anisotropic_diffusion_filtering (read_lines stdin) output_folder
  time_step conductance iterations.

End WithToolkit.
End Filter.

(** ** generate_net.py *)

Module GenerateNet.
Section WithToolkit.
Variable T : Toolkit.

Definition smoothed_file_of (component_file : string) : string :=
fst (PyStr.splitext component_file) +:+ "_smoothed.mha".

Definition output_file_of (component_file : string) : string :=
PyStr.join (PyStr.dirname component_file)
  (PyStr.replace "_smoothed.mha" ".vtk" (PyStr.basename (smoothed_file_of component_file))).

(** The body of the [for component_file] loop: both [try] blocks. *)
Definition mesh_component (contour_value : Q) (component_file : string) : M unit :=
r <- try_except
       (let smoothed_file := smoothed_file_of component_file in
        let output_file := output_file_of component_file in
        inputImage <- read_scalar_volume smoothed_file ;;
        mesh <- call (vtkContourFilter T contour_value inputImage) ;;
        ret (output_file, mesh))
       (fun _ => sys_exit 1) ;;
try_except
  (write_file (fst r) (Surface (snd r)) ;;;
   print (fst r))
  (fun _ => sys_exit 1).

Definition generate_mesh (components : list string) (contour_value : Q) : M unit :=
Filter.for_files (mesh_component contour_value) components.

Definition main (stdin : list string) (contour_value : Q) : M unit :=
generate_mesh (read_lines stdin) contour_value.

End WithToolkit.
End GenerateNet.

(** ** optimize_net.py *)

Module OptimizeNet.

Record Params : Type := mkParams {
  cleaning_tolerance : Q;
  iterations : Z;
  relaxation : Q;
  target_reduction : Q;
  artifact_tolerance : Z;
  hole_tolerance : Z
}.


Section WithToolkit.
Variable T : Toolkit.
Variable P : Params.

Definition GetNumberOfCells (m : PolyData) : Z := Z.of_nat (length (polys m)).

(** The [for region_id] loop: the regions added to the append filter. *)
Fixpoint for_regions (cleaned : PolyData) (region_ids : list nat)
  (inputs : list PolyData) : Exc (list PolyData) :=
match region_ids with
| [] => Done inputs
| region_id :: ids' =>
    match ExtractSpecifiedRegion T region_id cleaned with
    | Throws e => Throws e
    | Done region_output =>
        let num_cells := GetNumberOfCells region_output in
        if artifact_tolerance P <=? num_cells
        then for_regions cleaned ids' (inputs ++ [region_output])
        else for_regions cleaned ids' inputs
    end
end.

(** The regions of the cleaned mesh that are kept. *)
Definition retained_regions (cleaned : PolyData) : M (list PolyData) :=
num_regions <- call (GetNumberOfExtractedRegions T cleaned) ;;
call (for_regions cleaned (seq 0 num_regions) []).

(** From the append filter to the normals: the rest of the first
  [try] block once the retained regions are known. *)
Definition finish_stages (inputs : list PolyData) : M PolyData :=
appended <- call (vtkAppendPolyData T inputs) ;;
decimated <- call (vtkDecimatePro T (target_reduction P) appended) ;;
smoothed <- call (vtkSmoothPolyDataFilter T (iterations P) (relaxation P) decimated) ;;
filled <- call (vtkFillHolesFilter T (hole_tolerance P) smoothed) ;;
call (vtkPolyDataNormals T filled).

(** The first [try] block without its handler. *)
Definition stages (component : string) : M PolyData :=
poly_data <- read_polydata component ;;
cleaned <- call (vtkCleanPolyData T (cleaning_tolerance P) poly_data) ;;
inputs <- retained_regions cleaned ;;
finish_stages inputs.

Definition optimized_path (component : string) : string :=
PyStr.join (PyStr.dirname component)
  (fst (PyStr.splitext (PyStr.basename component)) +:+ "_optimized.vtk").

(** The body of the [for component] loop: both [try] blocks. *)
Definition optimize_component (component : string) : M unit :=
normals_output <- try_except (stages component) (fun _ => sys_exit 1) ;;
try_except
  (write_file (optimized_path component) (Surface normals_output))
  (fun _ => sys_exit 1).

Definition improve_tin (components : list string) : M unit :=
Filter.for_files optimize_component components.

Definition main (stdin : list string) : M unit :=
let components := read_lines stdin in
if 1 <=? Z.of_nat (length components) then improve_tin components
else ret tt.

End WithToolkit.
End OptimizeNet.

(** ** The mesh operators of stages 4 and 6, from the specification

    What [vtkSmoothPolyDataFilter] and [vtkPolyDataNormals] compute is
    decided inside VTK.  The two operators below follow the wording of
    the specification of the Mesh Optimizer (stages 4 and 6), over
    rational coordinates. *)

Module MeshOps.

Local Open Scope Q_scope.

Definition padd (p q : Point) : Point :=
  let '(x, y, z) := p in let '(x', y', z') := q in (x + x', y + y', z + z').
Definition psub (p q : Point) : Point :=
  let '(x, y, z) := p in let '(x', y', z') := q in (x - x', y - y', z - z').
Definition pscale (k : Q) (p : Point) : Point :=
  let '(x, y, z) := p in (k * x, k * y, k * z).
Definition cross (p q : Point) : Point :=
  let '(x, y, z) := p in let '(x', y', z') := q in
  (y * z' - z * y', z * x' - x * z', x * y' - y * x').
Definition origin : Point := (0, 0, 0).

(** Coordinate-wise equality of positions. *)
Definition point_eq (p q : Point) : Prop :=
  let '(x, y, z) := p in let '(x', y', z') := q in x == x' /\ y == y' /\ z == z'.

Definition point_at (pts : list Point) (i : nat) : Point := nth i pts origin.

(** The vertices that share a triangle edge with vertex [i]. *)
Definition edge_neighbours (tris : list Triangle) (i : nat) : list nat :=
  remove_dups
    (flat_map (fun t : Triangle =>
                 let '(a, b, c) := t in
                 if Nat.eqb i a then [b; c]
                 else if Nat.eqb i b then [a; c]
                 else if Nat.eqb i c then [a; b]
                 else []) tris).

Definition centroid (ps : list Point) : Point :=
  pscale (1 / inject_Z (Z.of_nat (length ps))) (foldr padd origin ps).

(** Modelled from the spec: the Laplacian smoothing pass of
    [vtkSmoothPolyDataFilter], which is VTK code.  One pass moves
    each vertex toward the centroid of its edge-connected neighbours,
    scaled by the relaxation factor; a vertex without neighbours
    stays. *)
Definition relax_vertex (relaxation : Q) (pts : list Point) (tris : list Triangle)
    (i : nat) (p : Point) : Point :=
  match edge_neighbours tris i with
  | [] => p
  | ns => padd p (pscale relaxation (psub (centroid (map (point_at pts) ns)) p))
  end.

Definition smooth_pass (relaxation : Q) (m : PolyData) : PolyData :=
  mkPolyData (imap (relax_vertex relaxation (points m) (polys m)) (points m))
             (polys m) (normals m).

(** Modelled from the spec: stage 4, Laplacian smoothing, which is
    VTK code: [smooth_iterations] passes. *)
Definition laplacian_smooth (smooth_iterations : Z) (smooth_relaxation : Q)
    (m : PolyData) : PolyData :=
  Nat.iter (Z.to_nat smooth_iterations) (smooth_pass smooth_relaxation) m.

(** *** Stage 6 *)

Definition flip (t : Triangle) : Triangle := let '(a, b, c) := t in (a, c, b).

Definition directed_edges (t : Triangle) : list (nat * nat) :=
  let '(a, b, c) := t in [(a, b); (b, c); (c, a)].

Definition edge_eqb (e f : nat * nat) : bool :=
  Nat.eqb (fst e) (fst f) && Nat.eqb (snd e) (snd f).

(** [t] runs along an edge of [o] in the same direction: the two
    triangles are oriented against each other. *)
Definition shares_same (o t : Triangle) : bool :=
  existsb (fun e => existsb (edge_eqb e) (directed_edges o)) (directed_edges t).

(** [t] runs along an edge of [o] in the opposite direction: the two
    triangles are oriented alike. *)
Definition shares_opposite (o t : Triangle) : bool :=
  existsb (fun e => existsb (edge_eqb (snd e, fst e)) (directed_edges o))
          (directed_edges t).

(** Orientation of [t] that agrees with an already oriented neighbour. *)
Definition orient_against (oriented : list Triangle) (t : Triangle) : option Triangle :=
  if existsb (fun o => shares_opposite o t) oriented then Some t
  else if existsb (fun o => shares_same o t) oriented then Some (flip t)
  else None.

(** One sweep over the triangles; the flag says whether a triangle's
    orientation has been settled. *)
Fixpoint sweep (oriented : list Triangle) (ts : list (Triangle * bool))
    : list (Triangle * bool) :=
  match ts with
  | [] => []
  | (t, true) :: r => (t, true) :: sweep oriented r
  | (t, false) :: r =>
      match orient_against oriented t with
      | Some t' => (t', true) :: sweep (t' :: oriented) r
      | None => (t, false) :: sweep oriented r
      end
  end.

(** Settle the first unsettled triangle as it is: the seed of the
    next connected region. *)
Fixpoint seed (ts : list (Triangle * bool)) : list (Triangle * bool) :=
  match ts with
  | [] => []
  | (t, false) :: r => (t, true) :: r
  | (t, true) :: r => (t, true) :: seed r
  end.

Definition settled (ts : list (Triangle * bool)) : list Triangle :=
  map fst (filter (fun x => snd x = true) ts).

Definition round (ts : list (Triangle * bool)) : list (Triangle * bool) :=
  let ts' := sweep (settled ts) ts in
  if Nat.eqb (length (settled ts')) (length (settled ts)) then seed ts' else ts'.

(** Modelled from the spec: stage 6, the propagation of a consistent
    orientation across connected triangles, which is VTK code. *)
Definition propagate (tris : list Triangle) : list Triangle :=
  map fst (Nat.iter (2 * length tris) round (map (fun t => (t, false)) tris)).

Definition triangle_normal (pts : list Point) (t : Triangle) : Point :=
  let '(a, b, c) := t in
  cross (psub (point_at pts b) (point_at pts a)) (psub (point_at pts c) (point_at pts a)).

Section Unify.
(** The interior heuristic, which the specification leaves open:
    whether a consistently oriented surface faces outward. *)
Variable faces_outward : list Point -> list Triangle -> bool.

(** Modelled from the spec: stage 6, normal unification, which is
    VTK code ([vtkPolyDataNormals]): per-triangle normals of the
    consistently oriented, outward-facing triangles. *)
Definition unify_normals (m : PolyData) : PolyData :=
  let consistent := propagate (polys m) in
  let outward :=
    if faces_outward (points m) consistent then consistent
    else map flip consistent in
  mkPolyData (points m) outward (Some (map (triangle_normal (points m)) outward)).
End Unify.

(** A heuristic by the sign of the enclosed volume. *)
Definition signed_volume (pts : list Point) (tris : list Triangle) : Q :=
  foldr Qplus 0
    (map (fun t : Triangle =>
            let '(a, b, c) := t in
            let '(x, y, z) := point_at pts a in
            let '(nx, ny, nz) := cross (point_at pts b) (point_at pts c) in
            x * nx + y * ny + z * nz) tris).

Definition volume_heuristic (pts : list Point) (tris : list Triangle) : bool :=
  Qle_bool 0 (signed_volume pts tris).


End MeshOps.

(** ** Stand-ins for the toolkits

    Used to run the scripts on concrete inputs.  Stages 4 and 6 are the
    operators above; the other filters pass their input through, and a
    mesh is one connected region (which holds of the meshes used). *)

Module StandIn.

Definition empty_mesh : PolyData := mkPolyData [] [] None.

Definition append_meshes (inputs : list PolyData) : PolyData :=
  foldr (fun m acc =>
           mkPolyData (points m ++ points acc)
             (polys m ++
              map (fun t : Triangle =>
                     let '(a, b, c) := t in
                     (a + length (points m), b + length (points m),
                      c + length (points m)))%nat (polys acc))
             None)
        empty_mesh inputs.

Definition toolkit : Toolkit :=
  mkToolkit
    (fun _ _ _ image => Done image)
    (fun _ _ => Done empty_mesh)
    (fun _ m => Done m)
    (fun m => Done (match polys m with [] => 0 | _ => 1 end)%nat)
    (fun _ m => Done m)
    (fun inputs => Done (append_meshes inputs))
    (fun _ m => Done m)
    (fun n r m => Done (MeshOps.laplacian_smooth n r m))
    (fun _ m => Done m)
    (fun m => Done (MeshOps.unify_normals MeshOps.volume_heuristic m)).

(** The same, but smoothing refuses a mesh without triangles. *)
Definition strict_toolkit : Toolkit :=
  mkToolkit
    (CurvatureAnisotropicDiffusion toolkit)
    (vtkContourFilter toolkit)
    (vtkCleanPolyData toolkit)
    (GetNumberOfExtractedRegions toolkit)
    (ExtractSpecifiedRegion toolkit)
    (vtkAppendPolyData toolkit)
    (vtkDecimatePro toolkit)
    (fun n r m =>
       match polys m with
       | [] => Throws "No data to smooth!"
       | _ => Done (MeshOps.laplacian_smooth n r m)
       end)
    (vtkFillHolesFilter toolkit)
    (vtkPolyDataNormals toolkit).

(** A tetrahedron, two of its faces wound the other way round. *)
Definition tetrahedron : PolyData :=
  mkPolyData [(0, 0, 0); (1, 0, 0); (0, 1, 0); (0, 0, 1)]%Q
             [(0, 2, 1); (0, 1, 3); (0, 2, 3); (1, 3, 2)]%nat None.

End StandIn.

(** ** Vocabulary of the properties *)

(** Strings of white space only. *)
Fixpoint blank (s : string) : bool :=
  match s with
  | EmptyString => true
  | String c s' => PyStr.isspace c && blank s'
  end.

(** The state after one line has been read from the terminal. *)
Definition after_reply (st : Process) : Process :=
  mkProcess (fs st) (readonly st) (option_map (@tl string) (tty st)) (stdout st).

(** The distinct nonzero labels of a voxel array, ascending. *)
Definition nonzero_labels (a : list Z) : list Z :=
  filter (fun v => v <> 0) (Segment.np_unique a).


(** The writes of the extraction loop over [ids], in order. *)
Definition written (a : list Z) (out : string) (ids : list Z) (st : Process) : Process :=
  foldl (fun s id =>
           mkProcess (<[Segment.component_path out id :=
                          LabelVolume (Segment.binary_threshold id id 1 0 a)]> (fs s))
                     (readonly s) (tty s) (stdout s)) st ids.

(** The number of voxels that carry the value [L]. *)
Definition voxel_count (a : list Z) (L : Z) : Z :=
  Z.of_nat (length (filter (fun v => v = L) a)).

(** The ids the extraction loop runs over, and those among them whose
    voxel count reaches the threshold. *)
Definition component_ids (a : list Z) : list Z :=
  Segment.range 1 (Z.of_nat (length (Segment.np_unique a)) + 1).

Definition large_enough (a : list Z) (component_size : Z) : list Z :=
  filter (fun id => component_size <= voxel_count a id) (component_ids a).

(** What a run of the extractor leaves alone: every file that is not
    a component file of the output folder, the write permissions and
    the lines printed so far. *)
Definition extraction_frame (out : string) (st st' : Process) : Prop :=
  (forall p, (forall id, p <> Segment.component_path out id) -> fs st' !! p = fs st !! p) /\
  readonly st' = readonly st /\
  stdout st' = stdout st.

(** The write that ends a pass of the extraction loop, with its
    handler: the component file is replaced and its path is the pass's
    result, or the write fails and the run ends with status 1. *)
Definition write_component (a : list Z) (out : string) (id : Z) (st : Process)
    : Res (option string) * Process :=
  if bool_decide (Segment.component_path out id ∈ readonly st) then (SysExit 1, st)
  else (Ok (Some (Segment.component_path out id)),
        mkProcess (<[Segment.component_path out id :=
                       LabelVolume (Segment.binary_threshold id id 1 0 a)]> (fs st))
                  (readonly st) (tty st) (stdout st)).

(** The target of a conversion, and the write and print that end it,
    with the handler: the image is stored under the target and the
    target is printed, or the write fails and the run ends with
    status 1. *)
Definition converted_path (input_nii_path output_mha_path : string) : string :=
  output_mha_path +:+ "/" +:+
  fst (PyStr.splitext (PyStr.basename input_nii_path)) +:+ ".mha".

Definition write_converted (target : string) (image : File) (st : Process)
    : Res unit * Process :=
  if bool_decide (target ∈ readonly st) then (SysExit 1, st)
  else (Ok tt, mkProcess (<[target := image]> (fs st)) (readonly st) (tty st)
                 (stdout st ++ [target])).


(** Whether the character [c] occurs in [s]. *)
Fixpoint has_char (c : ascii) (s : string) : bool :=
  match s with
  | EmptyString => false
  | String a s' => Ascii.eqb a c || has_char c s'
  end.

(** The file name segment.py gives to the component of an id. *)
Definition component_name (component_id : Z) (extension : string) : string :=
  "Component" +:+ PyStr.str_int component_id +:+ extension.



(** Process states of the worked examples. *)
Definition prompt_state (reply : string) : Process :=
  mkProcess
    {[ "/out/Component1.mha" := LabelVolume [0; 1];
       "/out/scan.mha" := LabelVolume [7];
       "/in/scan.nii" := LabelVolume [0; 1; 1] ]}
    ∅ (Some [reply]) [].

Definition two_meshes : Process :=
  mkProcess
    {[ "/m/Component1.vtk" := Surface (mkPolyData [(0, 0, 0)%Q] [] None);
       "/m/Component2.vtk" := Surface StandIn.tetrahedron ]}
    ∅ (Some []) [].

Definition one_small_mesh : Process :=
  mkProcess {[ "/m/Component1.vtk" := Surface StandIn.tetrahedron ]} ∅ (Some []) [].

Definition three_labels : Process :=
  mkProcess {[ "/in/v.mha" := LabelVolume [0; 1; 1; 1; 2; 3; 3] ]} ∅ None [].

Definition lenient_params : OptimizeNet.Params :=
  OptimizeNet.mkParams (25 # 100000) 2 (1 # 10) (1 # 100) 1 10.

(** * Properties *)

(** ** The overwrite prompt *)

Module PromptFacts.
Import PyStr.

Lemma append_cons c (a b : string) : String c a +:+ b = String c (a +:+ b).
Proof. reflexivity. Qed.

Lemma append_empty (b : string) : EmptyString +:+ b = b.
Proof. reflexivity. Qed.

Lemma rstrip_empty_iff s : rstrip s = EmptyString <-> blank s = true.
Proof.
  induction s as [|c s IH]; simpl; [tauto|].
  destruct (rstrip s) eqn:E.
  - destruct (isspace c); simpl; [tauto | split; discriminate].
  - split; [discriminate|].
    intros H. apply andb_true_iff in H as [_ H].
    apply IH in H. discriminate.
Qed.

Lemma rstrip_single_iff c s :
  rstrip s = String c EmptyString <->
  exists ws, s = String c ws /\ isspace c = false /\ blank ws = true.
Proof.
  split.
  - destruct s as [|a s]; simpl; [discriminate|].
    destruct (rstrip s) eqn:E.
    + destruct (isspace a) eqn:Ea; [discriminate|].
      intros [= ->]. exists s. split; [reflexivity|].
      split; [assumption|]. by apply rstrip_empty_iff.
    + intros [=].
  - intros (ws & -> & Hc & Hws). simpl.
    apply rstrip_empty_iff in Hws. rewrite Hws, Hc. reflexivity.
Qed.

Lemma lstrip_split s :
  exists ws, s = ws +:+ lstrip s /\ blank ws = true.
Proof.
  induction s as [|c s (ws & IH & Hws)]; simpl.
  - exists EmptyString. split; reflexivity.
  - destruct (isspace c) eqn:Ec.
    + exists (String c ws). split.
      * rewrite append_cons. f_equal. exact IH.
      * simpl. rewrite Ec. exact Hws.
    + exists EmptyString. split; reflexivity.
Qed.

Lemma lstrip_blank_prefix ws c s :
  blank ws = true -> isspace c = false ->
  lstrip (ws +:+ String c s) = String c s.
Proof.
  intros Hws Hc. induction ws as [|a ws IH].
  - rewrite append_empty. simpl. rewrite Hc. reflexivity.
  - simpl in Hws. apply andb_true_iff in Hws as [Ha Hws].
    rewrite append_cons. simpl. rewrite Ha. apply IH, Hws.
Qed.

Lemma strip_single_iff c line :
  isspace c = false ->
  strip line = String c EmptyString <->
  exists ws1 ws2, line = ws1 +:+ String c ws2 /\ blank ws1 = true /\ blank ws2 = true.
Proof.
  intros Hc. unfold strip. split.
  - intros H. apply rstrip_single_iff in H as (ws2 & Hl & _ & Hws2).
    destruct (lstrip_split line) as (ws1 & Hline & Hws1).
    exists ws1, ws2. rewrite Hl in Hline. auto.
  - intros (ws1 & ws2 & -> & Hws1 & Hws2).
    rewrite lstrip_blank_prefix by assumption.
    apply rstrip_single_iff. eauto.
Qed.

Lemma lower_char_y c :
  lower_char c = "y"%char <-> c = "y"%char \/ c = "Y"%char.
Proof.
  destruct c as [[] [] [] [] [] [] [] []]; vm_compute;
    split; try discriminate; try (intros [H|H]; discriminate); auto.
Qed.

Lemma lower_y_iff s :
  lower s = "y" <-> s = "y" \/ s = "Y".
Proof.
  destruct s as [|c [|c' s]]; simpl.
  - split; [discriminate | intros [H|H]; discriminate].
  - split.
    + intros [= H]. apply lower_char_y in H as [-> | ->]; auto.
    + intros [[= ->] | [= ->]]; reflexivity.
  - split; [discriminate | intros [H|H]; discriminate].
Qed.

(** The replies that count as consent, spelled out. *)
Lemma consent_replies line :
  lower (strip line) = "y" <->
  exists ws1 c ws2,
    line = ws1 +:+ String c ws2 /\ blank ws1 = true /\ blank ws2 = true /\
    (c = "y"%char \/ c = "Y"%char).
Proof.
  rewrite lower_y_iff. split.
  - intros [H | H]; apply strip_single_iff in H; try reflexivity;
      destruct H as (ws1 & ws2 & ? & ? & ?); eauto 10.
  - intros (ws1 & c & ws2 & Hl & H1 & H2 & [-> | ->]); [left | right];
      apply strip_single_iff; try reflexivity; eauto.
Qed.

End PromptFacts.

Lemma tty_readline_spec st lines :
  tty st = Some lines ->
  tty_readline st = (Ok (hd EmptyString lines), after_reply st).
Proof.
  intros H. unfold tty_readline, after_reply. rewrite H.
  destruct lines; [|reflexivity]. destruct st; simpl in *. by subst.
Qed.

Lemma confirm_overwrite_spec st lines :
  tty st = Some lines ->
  confirm_overwrite st =
  (Ok (String.eqb (PyStr.lower (PyStr.strip (hd EmptyString lines))) "y"), after_reply st).
Proof.
  intros H. unfold confirm_overwrite, bind. by rewrite (tty_readline_spec _ _ H).
Qed.

(** What [process_component] does at a component that is large enough
    and whose target file exists. *)
Lemma process_component_existing np_array output_folder component_size component_id st lines :
  component_size <= Segment.np_sum (Segment.binary_threshold component_id component_id 1 0 np_array) ->
  is_Some (fs st !! Segment.component_path output_folder component_id) ->
  tty st = Some lines ->
  Segment.process_component np_array output_folder component_size component_id st =
  if String.eqb (PyStr.lower (PyStr.strip (hd EmptyString lines))) "y" then
    try_except
      (write_file (Segment.component_path output_folder component_id)
         (LabelVolume (Segment.binary_threshold component_id component_id 1 0 np_array)) ;;;
       ret (Some (Segment.component_path output_folder component_id)))
      (fun _ => sys_exit 1) (after_reply st)
  else (Ok None, after_reply st).
Proof.
  intros Hsize Hex Htty.
  unfold Segment.process_component.
  apply Z.leb_le in Hsize. rewrite Hsize.
  unfold try_except at 1, bind at 1, path_exists.
  rewrite bool_decide_eq_true_2 by exact Hex.
  unfold bind at 1. rewrite (confirm_overwrite_spec _ _ Htty).
  destruct (String.eqb _ _); reflexivity.
Qed.

(** What [convert_nii_to_mha] does when the target file exists. *)
Lemma convert_existing input_nii_path output_mha_path image st lines :
  Convert.read_image input_nii_path st = (Ok image, st) ->
  is_Some (fs st !! (output_mha_path +:+ "/" +:+
                     fst (PyStr.splitext (PyStr.basename input_nii_path)) +:+ ".mha")) ->
  tty st = Some lines ->
  Convert.convert_nii_to_mha input_nii_path output_mha_path st =
  if String.eqb (PyStr.lower (PyStr.strip (hd EmptyString lines))) "y" then
    try_except
      (write_file (output_mha_path +:+ "/" +:+
                   fst (PyStr.splitext (PyStr.basename input_nii_path)) +:+ ".mha") image ;;;
       print (output_mha_path +:+ "/" +:+
              fst (PyStr.splitext (PyStr.basename input_nii_path)) +:+ ".mha"))
      (fun _ => sys_exit 1) (after_reply st)
  else (SysExit 0, after_reply st).
Proof.
  intros Hread Hex Htty.
  unfold Convert.convert_nii_to_mha.
  unfold try_except at 1, bind at 1. rewrite Hread.
  unfold bind at 1, path_exists.
  rewrite bool_decide_eq_true_2 by exact Hex.
  unfold bind at 1, bind at 1. rewrite (confirm_overwrite_spec _ _ Htty).
  destruct (String.eqb _ _); reflexivity.
Qed.

(** C10: the reply to the overwrite prompt of segment.py and convert.py
    (one and the same code) is stripped and lowercased, and it is
    consent exactly when the result is the string "y", that is, when
    the reply is a single y or Y between white space; every other
    reply, "yes" among them, is a decline. *)
Theorem overwrite_consent_only_y (st : Process) (lines : list string) :
  tty st = Some lines ->
  let line := hd EmptyString lines in
  (fst (confirm_overwrite st) = Ok true <-> PyStr.lower (PyStr.strip line) = "y") /\
  (fst (confirm_overwrite st) = Ok false <-> PyStr.lower (PyStr.strip line) <> "y") /\
  (fst (confirm_overwrite st) = Ok true <->
   exists ws1 c ws2,
     line = ws1 +:+ String c ws2 /\
     blank ws1 = true /\ blank ws2 = true /\
     (c = "y"%char \/ c = "Y"%char)) /\
  PyStr.lower (PyStr.strip "yes") <> "y".
Proof.
  intros Htty line.
  rewrite (confirm_overwrite_spec _ _ Htty). fold line. simpl fst.
  assert (Hy : Ok (String.eqb (PyStr.lower (PyStr.strip line)) "y") = @Ok bool true
               <-> PyStr.lower (PyStr.strip line) = "y").
  { destruct (String.eqb_spec (PyStr.lower (PyStr.strip line)) "y") as [E|E].
    - tauto.
    - split; [intros [=] | intros; contradiction]. }
  split; [exact Hy|]. split; [|split].
  - destruct (String.eqb_spec (PyStr.lower (PyStr.strip line)) "y") as [E|E].
    + split; [intros [=] | intros; contradiction].
    + tauto.
  - etransitivity; [exact Hy | apply PromptFacts.consent_replies].
  - vm_compute. discriminate.
Qed.

Lemma overwrite_consent_only_y_witness :
  fst (confirm_overwrite (prompt_state "  Y
")) = Ok true /\
  fst (confirm_overwrite (prompt_state "yes
")) = Ok false.
Proof.
  split.
  - destruct (overwrite_consent_only_y (prompt_state "  Y
") ["  Y
"] eq_refl) as (Hyes & _).
    apply Hyes. vm_compute. reflexivity.
  - destruct (overwrite_consent_only_y (prompt_state "yes
") ["yes
"] eq_refl) as (_ & Hno & _).
    apply Hno. vm_compute. discriminate.
Defined.

(** C6: when the target file exists and the operator declines the
    overwrite, segment.py skips that one component - nothing is written,
    nothing is added to the output list - and goes on with the remaining
    component ids; convert.py, whose single artifact it is, writes and
    prints nothing and ends with exit status 0. *)
Theorem decline_skips_only_that_artifact
    (st : Process) (lines : list string)
    (np_array : list Z) (output_folder : string) (component_size component_id : Z)
    (ids : list Z) (components : list string)
    (input_nii_path output_mha_path : string) (image : File) :
  tty st = Some lines ->
  PyStr.lower (PyStr.strip (hd EmptyString lines)) <> "y" ->
  (component_size <= Segment.np_sum (Segment.binary_threshold component_id component_id 1 0 np_array) ->
   is_Some (fs st !! Segment.component_path output_folder component_id) ->
   Segment.for_components np_array output_folder component_size (component_id :: ids) components st
   = Segment.for_components np_array output_folder component_size ids components (after_reply st)) /\
  (Convert.read_image input_nii_path st = (Ok image, st) ->
   is_Some (fs st !! (output_mha_path +:+ "/" +:+
                      fst (PyStr.splitext (PyStr.basename input_nii_path)) +:+ ".mha")) ->
   Convert.convert_nii_to_mha input_nii_path output_mha_path st = (SysExit 0, after_reply st) /\
   exit_status (fst (Convert.convert_nii_to_mha input_nii_path output_mha_path st)) = 0) /\
  fs (after_reply st) = fs st /\ stdout (after_reply st) = stdout st.
Proof.
  intros Htty Hno.
  apply String.eqb_neq in Hno.
  split; [|split; [|split; reflexivity]].
  - intros Hsize Hex. simpl Segment.for_components. unfold bind at 1.
    rewrite (process_component_existing _ _ _ _ _ _ Hsize Hex Htty), Hno.
    reflexivity.
  - intros Hread Hex.
    rewrite (convert_existing _ _ _ _ _ Hread Hex Htty), Hno.
    split; reflexivity.
Qed.

Lemma decline_skips_only_that_artifact_witness :
  Segment.for_components [0; 1; 2] "/out" 1 [1; 2] [] (prompt_state "n")
  = Segment.for_components [0; 1; 2] "/out" 1 [2] [] (after_reply (prompt_state "n")) /\
  Convert.convert_nii_to_mha "/in/scan.nii" "/out" (prompt_state "n")
  = (SysExit 0, after_reply (prompt_state "n")).
Proof.
  pose proof (decline_skips_only_that_artifact (prompt_state "n") ["n"]
                [0; 1; 2] "/out" 1 1 [2] [] "/in/scan.nii" "/out" (LabelVolume [0; 1; 1])
                eq_refl) as H.
  destruct H as (Hseg & Hconv & _).
  - vm_compute. discriminate.
  - split.
    + apply Hseg; [vm_compute; discriminate | eexists; vm_compute; reflexivity].
    + apply Hconv; [vm_compute; reflexivity | eexists; vm_compute; reflexivity].
Defined.

(** The run of the specification's last testable property: Component2 is
    declined, Component1 and Component3 are accepted. *)
Example decline_component2 :
  let st := mkProcess
              {[ "/in/v.mha" := LabelVolume [0; 1; 2; 3; 3];
                 "/out/Component1.mha" := LabelVolume [];
                 "/out/Component2.mha" := LabelVolume [];
                 "/out/Component3.mha" := LabelVolume [] ]}
              ∅ (Some ["y"; "n"; "y"]) [] in
  let r := Segment.main "/in/v.mha" "/out" 1 st in
  fst r = Ok tt /\
  stdout (snd r) = ["/out/Component1.mha"; "/out/Component3.mha"] /\
  fs (snd r) !! "/out/Component2.mha" = Some (LabelVolume []).
Proof. vm_compute. auto. Qed.

(** ** Component extraction *)

(** C1: on the volume [0; 1; 2; 1], which has the two nonzero labels 1
    and 2, and with voxel threshold 0 and an empty output folder, the
    extractor emits three components: the loop runs over
    [range(1, unique_values.size + 1)] and so also over id 3, whose
    component is the all-zero grid. *)
Theorem extractor_emits_one_component_too_many :
  let st := mkProcess {[ "/in/v.mha" := LabelVolume [0; 1; 2; 1] ]} ∅ (Some []) [] in
  let r := Segment.extract_connected_components "/in/v.mha" "/out" 0 st in
  nonzero_labels [0; 1; 2; 1] = [1; 2] /\
  fst r = Ok tt /\
  stdout (snd r) = ["/out/Component1.mha"; "/out/Component2.mha"; "/out/Component3.mha"] /\
  fs (snd r) !! "/out/Component1.mha" = Some (LabelVolume [0; 1; 0; 1]) /\
  fs (snd r) !! "/out/Component2.mha" = Some (LabelVolume [0; 0; 1; 0]) /\
  fs (snd r) !! "/out/Component3.mha" = Some (LabelVolume [0; 0; 0; 0]).
Proof. vm_compute. repeat split; reflexivity. Qed.

(** Labels that are not 1..k: label 5 gets no component at all, ids 1
    and 2 get empty ones. *)
Example extractor_misses_label_5 :
  let st := mkProcess {[ "/in/v.mha" := LabelVolume [0; 5; 5] ]} ∅ (Some []) [] in
  let r := Segment.extract_connected_components "/in/v.mha" "/out" 0 st in
  nonzero_labels [0; 5; 5] = [5] /\
  stdout (snd r) = ["/out/Component1.mha"; "/out/Component2.mha"] /\
  fs (snd r) !! "/out/Component1.mha" = Some (LabelVolume [0; 0; 0]) /\
  fs (snd r) !! "/out/Component5.mha" = None.
Proof. vm_compute. repeat split; reflexivity. Qed.

Module SegmentFacts.
Import Segment.

Lemma insert_unique_In x y l :
  In y (insert_unique x l) <-> y = x \/ In y l.
Proof.
  induction l as [|z l IH]; simpl.
  - intuition.
  - destruct (x <? z) eqn:E1; [simpl; intuition|].
    destruct (x =? z) eqn:E2.
    + apply Z.eqb_eq in E2. subst. simpl. intuition.
    + simpl. rewrite IH. intuition.
Qed.

Lemma np_unique_In y a : In y (np_unique a) <-> In y a.
Proof.
  induction a as [|x a IH]; simpl; [tauto|].
  rewrite insert_unique_In, IH. intuition.
Qed.

Lemma np_unique_zeros a :
  a <> [] -> Forall (fun v => v = 0) a -> np_unique a = [0].
Proof.
  induction a as [|x a IH]; [congruence|].
  intros _ H. inversion H as [|? ? -> Ha]; subst.
  destruct a as [|y a]; [reflexivity|].
  simpl in *. rewrite IH by (congruence || assumption). reflexivity.
Qed.

Lemma two_members_length (l : list Z) x y :
  x <> y -> In x l -> In y l -> (2 <= length l)%nat.
Proof.
  intros Hne Hx Hy.
  destruct l as [|u [|v l]]; simpl in *; [tauto | | lia].
  destruct Hx as [<-|[]]. destruct Hy as [<-|[]]. congruence.
Qed.

(** With a background voxel present, [number_components == 0] holds
    exactly when there is no other voxel value. *)
Lemma number_components_zero a :
  In 0 a ->
  (Z.of_nat (length (np_unique a)) - 1 =? 0) = true <-> Forall (fun v => v = 0) a.
Proof.
  intros H0. rewrite Z.eqb_eq. split.
  - intros Hlen. apply Forall_forall. intros v Hv.
    apply list_elem_of_In in Hv.
    destruct (Z.eq_dec v 0) as [|Hne]; [assumption|exfalso].
    assert (2 <= length (np_unique a))%nat.
    { apply (two_members_length _ v 0 Hne); by apply np_unique_In. }
    lia.
  - intros Hall. rewrite np_unique_zeros; [reflexivity | | assumption].
    intros ->. destruct H0.
Qed.

Lemma print_all_spec lines st :
  print_all lines st =
  (Ok tt, mkProcess (fs st) (readonly st) (tty st) (stdout st ++ lines)).
Proof.
  revert st. induction lines as [|l lines IH]; intros st; simpl.
  - unfold ret. rewrite app_nil_r. by destruct st.
  - unfold bind, print. rewrite IH. simpl. by rewrite <- app_assoc.
Qed.




Lemma extract_unfold input_file output_folder component_size st a :
  read_array input_file st = (Ok a, st) ->
  extract_connected_components input_file output_folder component_size st =
  if Z.of_nat (length (np_unique a)) - 1 =? 0 then (SysExit 1, st)
  else
    match for_components a output_folder component_size
            (range 1 (Z.of_nat (length (np_unique a)) + 1)) [] st with
    | (Ok components, st1) =>
        (if 1 <=? Z.of_nat (length components) then print_all components
         else sys_exit 0) st1
    | (Raise e, st1) => (Raise e, st1)
    | (SysExit c, st1) => (SysExit c, st1)
    end.
Proof.
  intros Hread.
  unfold extract_connected_components, bind at 1, try_except.
  rewrite Hread. destruct (_ =? 0); reflexivity.
Qed.

End SegmentFacts.

(** *** What the loop emits on a fresh output folder *)

Module ComponentFacts.
Import Segment SegmentFacts.

Lemma str_int_inj i j : 0 < i -> 0 < j -> PyStr.str_int i = PyStr.str_int j -> i = j.
Proof.
  intros Hi Hj H. unfold PyStr.str_int in H.
  assert (Hparse : forall n, 0 < n ->
            NilZero.int_of_string (NilZero.string_of_int (Z.to_int n)) = Some (Z.to_int n)).
  { intros n Hn. apply NilZero.isi; destruct n as [|p|p]; try lia; simpl.
    - intros [= E]. exact (Unsigned.to_uint_nonnil p E).
    - discriminate. }
  pose proof (Hparse i Hi) as Ei. rewrite H, (Hparse j Hj) in Ei.
  injection Ei as Ei.
  rewrite <- (DecimalZ.of_to i), <- (DecimalZ.of_to j). by rewrite Ei.
Qed.

Lemma append_length (x y : string) :
  String.length (x +:+ y) = (String.length x + String.length y)%nat.
Proof.
  induction x as [|c x IH]; [reflexivity|].
  rewrite PromptFacts.append_cons. simpl. by rewrite IH.
Qed.

Lemma append_inj_l (a x y : string) : a +:+ x = a +:+ y -> x = y.
Proof.
  induction a as [|c a IH]; [auto|].
  rewrite !PromptFacts.append_cons. intros [= H]. by apply IH.
Qed.

Lemma append_inj_r (x y c : string) : x +:+ c = y +:+ c -> x = y.
Proof.
  revert y. induction x as [|a x IH]; intros [|b y] H.
  - reflexivity.
  - apply (f_equal String.length) in H. rewrite !append_length in H. simpl in H. lia.
  - apply (f_equal String.length) in H. rewrite !append_length in H. simpl in H. lia.
  - rewrite !PromptFacts.append_cons in H. injection H as -> H. f_equal. by apply IH.
Qed.

Lemma component_path_inj out i j :
  0 < i -> 0 < j -> component_path out i = component_path out j -> i = j.
Proof.
  intros Hi Hj. unfold component_path, PyStr.join.
  replace (PyStr.startswith (String PyStr.sep EmptyString)
             ("Component" +:+ PyStr.str_int i +:+ ".mha")) with false by reflexivity.
  replace (PyStr.startswith (String PyStr.sep EmptyString)
             ("Component" +:+ PyStr.str_int j +:+ ".mha")) with false by reflexivity.
  intros H. apply (str_int_inj i j Hi Hj).
  assert (E : "Component" +:+ PyStr.str_int i +:+ ".mha"
              = "Component" +:+ PyStr.str_int j +:+ ".mha").
  { destruct (String.eqb out EmptyString || PyStr.endswith_char PyStr.sep out).
    - by apply append_inj_l in H.
    - apply append_inj_l in H. exact (f_equal (PyStr.drop 1) H). }
  apply append_inj_l in E. by apply append_inj_r in E.
Qed.

(** The component of id [L] marks exactly the voxels that equal [L]. *)
Lemma binary_threshold_marks L a :
  binary_threshold L L 1 0 a = map (fun v => if v =? L then 1 else 0) a.
Proof.
  unfold binary_threshold. apply map_ext. intros v.
  destruct (v =? L) eqn:E.
  - apply Z.eqb_eq in E. subst. by rewrite Z.leb_refl.
  - apply Z.eqb_neq in E.
    destruct (L <=? v) eqn:E1, (v <=? L) eqn:E2; try reflexivity. lia.
Qed.

Lemma np_sum_nonneg L a : 0 <= np_sum (binary_threshold L L 1 0 a).
Proof.
  induction a as [|v a IH]; simpl; [lia|].
  destruct ((L <=? v) && (v <=? L)); lia.
Qed.

Lemma for_components_fresh a out size ids acc st :
  size <= 0 ->
  readonly st = ∅ ->
  NoDup ids ->
  (forall id, In id ids -> 0 < id /\ fs st !! component_path out id = None) ->
  for_components a out size ids acc st
  = (Ok (acc ++ map (component_path out) ids), written a out ids st).
Proof.
  intros Hsize. revert acc st.
  induction ids as [|id ids IH]; intros acc st Hro Hnd Hfresh; simpl.
  - unfold ret. by rewrite app_nil_r.
  - destruct (Hfresh id) as [Hid Hnone]; [by left|].
    inversion Hnd as [|? ? Hnotin Hnd']; subst.
    unfold bind at 1, process_component.
    replace (size <=? np_sum (binary_threshold id id 1 0 a)) with true
      by (symmetry; apply Z.leb_le; pose proof (np_sum_nonneg id a); lia).
    unfold try_except, bind at 1, path_exists.
    rewrite bool_decide_eq_false_2 by (rewrite Hnone; by intros [? ?]).
    unfold bind at 1, ret at 1, bind at 1, write_file.
    rewrite bool_decide_eq_false_2 by (rewrite Hro; set_solver).
    unfold ret at 1.
    rewrite IH; simpl; try assumption.
    + by rewrite <- app_assoc.
    + intros j Hj. destruct (Hfresh j) as [Hjpos Hjnone]; [by right|].
      split; [assumption|].
      rewrite lookup_insert_ne; [assumption|].
      intros E. apply component_path_inj in E; try assumption.
      subst. apply Hnotin. by apply list_elem_of_In.
Qed.

Lemma written_stdout a out ids st : stdout (written a out ids st) = stdout st.
Proof. revert st. induction ids as [|id ids IH]; intros st; simpl; [reflexivity|]. by rewrite IH. Qed.

Lemma range_NoDup lo hi : NoDup (range lo hi).
Proof.
  unfold range. apply NoDup_fmap_2; [|apply NoDup_seq].
  intros i j H. lia.
Qed.

Lemma range_In lo hi i : In i (range lo hi) -> lo <= i < hi.
Proof.
  unfold range. intros H. apply in_map_iff in H as (k & <- & Hk).
  apply in_seq in Hk. lia.
Qed.

Lemma range_length lo hi : length (range lo hi) = Z.to_nat (hi - lo).
Proof. unfold range. by rewrite length_map, length_seq. Qed.

Lemma insert_unique_sorted x l :
  StronglySorted Z.lt l -> StronglySorted Z.lt (insert_unique x l).
Proof.
  induction 1 as [|y l Hs IH Hall]; simpl.
  - repeat constructor.
  - destruct (x <? y) eqn:E1.
    + apply Z.ltb_lt in E1. constructor; [by constructor|].
      constructor; [assumption|].
      eapply List.Forall_impl; [|exact Hall]. simpl. intros; lia.
    + destruct (x =? y) eqn:E2; [by constructor|].
      apply Z.ltb_ge in E1. apply Z.eqb_neq in E2.
      constructor; [assumption|].
      apply List.Forall_forall. intros z Hz.
      apply insert_unique_In in Hz as [->|Hz]; [lia|].
      rewrite List.Forall_forall in Hall. by apply Hall.
Qed.

Lemma np_unique_sorted a : StronglySorted Z.lt (np_unique a).
Proof.
  induction a as [|x a IH]; simpl; [constructor | by apply insert_unique_sorted].
Qed.

Lemma sorted_count_nonzero l :
  StronglySorted Z.lt l -> In 0 l ->
  length l = S (length (filter (fun v => v <> 0) l)).
Proof.
  induction 1 as [|y l Hs IH Hall]; [intros []|].
  rewrite List.Forall_forall in Hall.
  intros [-> | Hin].
  - rewrite filter_cons_False by tauto. simpl. f_equal.
    clear IH Hs. induction l as [|z l IHl]; [reflexivity|].
    rewrite filter_cons_True.
    + simpl. f_equal. apply IHl. intros w Hw. apply Hall. by right.
    + specialize (Hall z (or_introl eq_refl)). lia.
  - rewrite filter_cons_True.
    + simpl. f_equal. by apply IH.
    + specialize (Hall 0 Hin). lia.
Qed.

Lemma written_lookup a out ids st id :
  0 < id -> (forall j, In j ids -> 0 < j) ->
  In id ids \/
  fs st !! component_path out id = Some (LabelVolume (binary_threshold id id 1 0 a)) ->
  fs (written a out ids st) !! component_path out id
  = Some (LabelVolume (binary_threshold id id 1 0 a)).
Proof.
  intros Hid. revert st. induction ids as [|j ids IH]; intros st Hpos H; simpl.
  - destruct H as [[] | H]. exact H.
  - apply IH; [intros k Hk; apply Hpos; by right|]. simpl.
    destruct (Z.eq_dec j id) as [-> | Hne].
    + right. apply lookup_insert_eq.
    + destruct H as [[E | Hin] | H]; [contradiction | by left | right].
      rewrite lookup_insert_ne; [exact H|].
      intros E. apply Hne. apply (component_path_inj out); try assumption.
      apply Hpos. by left.
Qed.

(** With threshold 0 (or below), writes that succeed and an output
    folder without component files, the extractor emits one component
    per id from 1 to the number of distinct voxel values, in ascending
    order, each marking the voxels that equal its id: one component
    more than there are nonzero labels whenever a background voxel is
    present. *)
Lemma extractor_emits_one_per_value input_file output_folder component_size st a :
  read_array input_file st = (Ok a, st) ->
  In 0 a -> ~ Forall (fun v => v = 0) a ->
  component_size <= 0 ->
  readonly st = ∅ ->
  (forall id, fs st !! component_path output_folder id = None) ->
  let r := extract_connected_components input_file output_folder component_size st in
  let ids := range 1 (Z.of_nat (length (np_unique a)) + 1) in
  fst r = Ok tt /\
  stdout (snd r) = stdout st ++ map (component_path output_folder) ids /\
  length ids = S (length (nonzero_labels a)) /\
  forall id, In id ids ->
    fs (snd r) !! component_path output_folder id
    = Some (LabelVolume (map (fun v => if v =? id then 1 else 0) a)).
Proof.
  intros Hread H0 Hnot Hsize Hro Hfresh r ids.
  assert (Hlen : length ids = S (length (nonzero_labels a))).
  { unfold ids. rewrite range_length. unfold nonzero_labels.
    rewrite <- (sorted_count_nonzero _ (np_unique_sorted a));
      [lia | by apply np_unique_In]. }
  assert (Hf : (Z.of_nat (length (np_unique a)) - 1 =? 0) = false).
  { apply not_true_is_false. intros E. by apply (number_components_zero a H0) in E. }
  assert (Hpos : forall j, In j ids -> 0 < j).
  { intros j Hj. apply range_In in Hj. lia. }
  assert (Hr : r = (Ok tt,
                    mkProcess (fs (written a output_folder ids st)) (readonly st) (tty st)
                      (stdout st ++ map (component_path output_folder) ids))).
  { subst r. rewrite (extract_unfold _ _ _ _ _ Hread), Hf. fold ids.
    rewrite (for_components_fresh a output_folder component_size ids [] st Hsize Hro
               (range_NoDup _ _)) by (intros id Hid; split; [by apply Hpos | apply Hfresh]).
    rewrite !app_nil_l.
    replace (1 <=? Z.of_nat (length (map (component_path output_folder) ids))) with true
      by (symmetry; apply Z.leb_le; rewrite length_map, Hlen; lia).
    rewrite print_all_spec, written_stdout. f_equal. f_equal.
    - clear. revert st. induction ids as [|j l IH]; intros st; [reflexivity|]. simpl. by rewrite IH.
    - clear. revert st. induction ids as [|j l IH]; intros st; [reflexivity|]. simpl. by rewrite IH. }
  rewrite Hr. simpl. repeat split; try assumption.
  intros id Hid. rewrite <- binary_threshold_marks.
  apply written_lookup; [by apply Hpos | assumption | by left].
Qed.

End ComponentFacts.




(** ** Stage hand-over *)

(** C7, as the code has it: handed an empty list, filter.py ends with
    exit status 1, while generate_net.py and optimize_net.py end with
    status 0; none of the three writes or prints anything. *)
Theorem empty_input_list (T : Toolkit) (P : OptimizeNet.Params) (st : Process)
    (output_folder : string) (time_step conductance contour_value : Q) (iterations : Z) :
  Filter.main T [] output_folder time_step conductance iterations st = (SysExit 1, st) /\
  GenerateNet.main T [] contour_value st = (Ok tt, st) /\
  OptimizeNet.main T P [] st = (Ok tt, st).
Proof. repeat split. Qed.

(** C7 fails as stated: the volume smoother, handed the empty list,
    ends with a non-zero exit status. *)
Lemma filter_empty_list_exits_1 :
  let st := mkProcess {[ "/out/Component1.mha" := LabelVolume [0; 1] ]} ∅ (Some []) [] in
  exit_status (fst (Filter.main StandIn.toolkit [] "/out" (25 # 10000) (25 # 10) 32 st)) = 1.
Proof. reflexivity. Qed.

(** What the smoother prints for a component it has smoothed: the path
    it was given. *)
Lemma filter_component_prints_input T output_folder time_step conductance iterations
    component_file st st' :
  Filter.filter_component T output_folder time_step conductance iterations component_file st
  = (Ok tt, st') ->
  stdout st' = stdout st ++ [component_file] /\
  is_Some (fs st' !! Filter.smoothed_path output_folder component_file).
Proof.
  unfold Filter.filter_component, bind at 1, try_except at 1, bind at 1, read_scalar_volume.
  destruct (fs st !! component_file) as [[a|a|m]|]; try (simpl; discriminate).
  all: unfold bind at 1, call;
    destruct (CurvatureAnisotropicDiffusion T _ _ _ _); try (simpl; discriminate);
    unfold write_file; destruct (bool_decide _); try (simpl; discriminate);
    simpl; intros [= <-]; simpl; rewrite lookup_insert_eq; eauto.
Qed.

(** C4: a component volume in /data/in is smoothed into /data/out.  The
    smoother writes /data/out/Component1_smoothed.mha and prints
    /data/in/Component1.mha, the path it was given; the mesh generator,
    fed that line, looks for /data/in/Component1_smoothed.mha, which
    nobody wrote, and ends with exit status 1. *)
Theorem smoother_prints_its_input_path :
  let st := mkProcess {[ "/data/in/Component1.mha" := LabelVolume [0; 1; 1; 0] ]}
                      ∅ (Some []) [] in
  let smooth := Filter.main StandIn.toolkit ["/data/in/Component1.mha
"] "/data/out" (25 # 10000) (25 # 10) 32 st in
  let piped := mkProcess (fs (snd smooth)) ∅ (Some []) [] in
  let mesh := GenerateNet.main StandIn.toolkit (stdout (snd smooth)) (1 # 2) piped in
  fst smooth = Ok tt /\
  is_Some (fs (snd smooth) !! "/data/out/Component1_smoothed.mha") /\
  stdout (snd smooth) = ["/data/in/Component1.mha"] /\
  GenerateNet.smoothed_file_of "/data/in/Component1.mha" = "/data/in/Component1_smoothed.mha" /\
  fs (snd smooth) !! "/data/in/Component1_smoothed.mha" = None /\
  fst mesh = SysExit 1 /\
  stdout (snd mesh) = [].
Proof. vm_compute. repeat split; eauto. Qed.

(** ** Mesh optimization *)

Module OptimizeFacts.
Import OptimizeNet.

Lemma for_files_app body (pre post : list string) st :
  Filter.for_files body (pre ++ post) st =
  match Filter.for_files body pre st with
  | (Ok _, st') => Filter.for_files body post st'
  | other => other
  end.
Proof.
  revert st. induction pre as [|f pre IH]; intros st; simpl; [reflexivity|].
  unfold bind. destruct (body f st) as [[[]| |] st1]; [apply IH | reflexivity..].
Qed.

Lemma optimize_component_raise T P component st e st' :
  stages T P component st = (Raise e, st') ->
  optimize_component T P component st = (SysExit 1, st').
Proof.
  intros H. unfold optimize_component, bind, try_except. rewrite H. reflexivity.
Qed.

Lemma optimize_component_write_fails T P component st m st' :
  stages T P component st = (Ok m, st') ->
  optimized_path component ∈ readonly st' ->
  optimize_component T P component st = (SysExit 1, st').
Proof.
  intros H Hro. unfold optimize_component, bind, try_except at 1. rewrite H.
  unfold try_except, write_file. rewrite bool_decide_eq_true_2 by assumption.
  reflexivity.
Qed.


End OptimizeFacts.

(** C2, as the code has it: when reading or any of the stages of one
    mesh raises, or when its optimized mesh cannot be written, the whole
    run ends there with exit status 1; the meshes after it in the list
    are not processed. *)
Theorem optimizer_failure_is_fatal
    (T : Toolkit) (P : OptimizeNet.Params) (done_before : list string)
    (component : string) (rest : list string) (st st1 st2 : Process) :
  OptimizeNet.improve_tin T P done_before st = (Ok tt, st1) ->
  ((exists e, OptimizeNet.stages T P component st1 = (Raise e, st2)) \/
   (exists m, OptimizeNet.stages T P component st1 = (Ok m, st2) /\
              OptimizeNet.optimized_path component ∈ readonly st2)) ->
  OptimizeNet.improve_tin T P (done_before ++ component :: rest) st = (SysExit 1, st2).
Proof.
  intros Hpre Hfail. unfold OptimizeNet.improve_tin in *.
  rewrite OptimizeFacts.for_files_app, Hpre. simpl. unfold bind at 1.
  destruct Hfail as [[e He] | (m & Hm & Hro)].
  - by rewrite (OptimizeFacts.optimize_component_raise _ _ _ _ _ _ He).
  - by rewrite (OptimizeFacts.optimize_component_write_fails _ _ _ _ _ _ Hm Hro).
Qed.

Lemma optimizer_failure_is_fatal_witness :
  OptimizeNet.improve_tin StandIn.strict_toolkit lenient_params
    ([] ++ "/m/Component1.vtk" :: ["/m/Component2.vtk"]) two_meshes
  = (SysExit 1, two_meshes).
Proof.
  apply (optimizer_failure_is_fatal StandIn.strict_toolkit lenient_params
           [] "/m/Component1.vtk" ["/m/Component2.vtk"] two_meshes two_meshes two_meshes).
  - reflexivity.
  - left. eexists. vm_compute. reflexivity.
Defined.

(** C2 fails as stated: smoothing raises on the first mesh (it has no
    triangles); the run ends with exit status 1 and the second mesh,
    which would pass, is never optimized. *)
Lemma optimizer_stops_at_first_failure :
  let r := OptimizeNet.main StandIn.strict_toolkit lenient_params
             ["/m/Component1.vtk"; "/m/Component2.vtk"] two_meshes in
  exit_status (fst r) = 1 /\
  fs (snd r) !! "/m/Component2_optimized.vtk" = None /\
  exit_status (fst (OptimizeNet.main StandIn.strict_toolkit lenient_params
                      ["/m/Component2.vtk"] two_meshes)) = 0.
Proof. vm_compute. repeat split; reflexivity. Qed.




(** ** Stages 4 and 6 on the operators of the specification *)

Module MeshFacts.
Import MeshOps.

Lemma point_eq_refl p : point_eq p p.
Proof. destruct p as [[x y] z]. simpl. repeat split; reflexivity. Qed.

Lemma point_eq_trans p q r : point_eq p q -> point_eq q r -> point_eq p r.
Proof.
  destruct p as [[x y] z], q as [[x' y'] z'], r as [[x'' y''] z''].
  simpl. intros (H1 & H2 & H3) (H4 & H5 & H6).
  repeat split; etransitivity; eassumption.
Qed.

Lemma positions_refl (l : list Point) : Forall2 point_eq l l.
Proof. induction l; constructor; [apply point_eq_refl | assumption]. Qed.

Lemma positions_trans (l1 l2 l3 : list Point) :
  Forall2 point_eq l1 l2 -> Forall2 point_eq l2 l3 -> Forall2 point_eq l1 l3.
Proof.
  intros H. revert l3. induction H as [|p q l1 l2 Hpq _ IH]; intros l3 H3.
  - inversion H3. constructor.
  - inversion H3 as [|? r ? l3' Hqr Hrest]; subst. constructor.
    + exact (point_eq_trans _ _ _ Hpq Hqr).
    + apply IH, Hrest.
Qed.

Lemma relax_vertex_zero r pts tris i p :
  (r == 0)%Q -> point_eq (relax_vertex r pts tris i p) p.
Proof.
  intros Hr. unfold relax_vertex.
  destruct (edge_neighbours tris i) as [|n ns]; [apply point_eq_refl|].
  destruct (centroid _) as [[cx cy] cz], p as [[x y] z].
  simpl. repeat split; rewrite Hr; ring.
Qed.

Lemma imap_positions (f : nat -> Point -> Point) (l : list Point) :
  (forall i p, point_eq (f i p) p) -> Forall2 point_eq (imap f l) l.
Proof.
  revert f. induction l as [|p l IH]; intros f Hf; simpl; constructor.
  - apply Hf.
  - apply IH. intros i q. apply Hf.
Qed.

Lemma smooth_pass_zero r m :
  (r == 0)%Q -> Forall2 point_eq (points (smooth_pass r m)) (points m).
Proof.
  intros Hr. simpl. apply imap_positions. intros i p.
  by apply relax_vertex_zero.
Qed.

Lemma iter_polys n r m :
  polys (Nat.iter n (smooth_pass r) m) = polys m.
Proof. induction n as [|n IH]; simpl; [reflexivity | exact IH]. Qed.

Lemma iter_zero_relaxation n r m :
  (r == 0)%Q -> Forall2 point_eq (points (Nat.iter n (smooth_pass r) m)) (points m).
Proof.
  intros Hr. induction n as [|n IH].
  - apply positions_refl.
  - change (Nat.iter (S n) (smooth_pass r) m)
      with (smooth_pass r (Nat.iter n (smooth_pass r) m)).
    eapply positions_trans; [by apply smooth_pass_zero | exact IH].
Qed.











End MeshFacts.

(** C8: Laplacian smoothing with relaxation factor 0, or with 0
    iterations, leaves every vertex where it is (and the triangles as
    they are). *)
Theorem smoothing_without_effect
    (m : PolyData) (smooth_iterations : Z) (smooth_relaxation : Q) :
  (smooth_relaxation == 0)%Q \/ smooth_iterations = 0 ->
  Forall2 MeshOps.point_eq
    (points (MeshOps.laplacian_smooth smooth_iterations smooth_relaxation m)) (points m) /\
  polys (MeshOps.laplacian_smooth smooth_iterations smooth_relaxation m) = polys m.
Proof.
  intros H. unfold MeshOps.laplacian_smooth. split.
  - destruct H as [Hr | ->].
    + by apply MeshFacts.iter_zero_relaxation.
    + apply MeshFacts.positions_refl.
  - apply MeshFacts.iter_polys.
Qed.

Lemma smoothing_without_effect_witness :
  Forall2 MeshOps.point_eq
    (points (MeshOps.laplacian_smooth 3 0 StandIn.tetrahedron)) (points StandIn.tetrahedron) /\
  points (MeshOps.laplacian_smooth 0 (1 # 2) StandIn.tetrahedron) = points StandIn.tetrahedron.
Proof.
  split.
  - apply (smoothing_without_effect StandIn.tetrahedron 3 0). left. reflexivity.
  - reflexivity.
Defined.

(** With a relaxation factor and an iteration count that are not zero
    the vertices do move. *)
Example smoothing_moves_vertices :
  points (MeshOps.laplacian_smooth 1 (1 # 2) StandIn.tetrahedron)
  = [(1 # 6, 1 # 6, 1 # 6); (3 # 6, 1 # 6, 1 # 6);
     (1 # 6, 3 # 6, 1 # 6); (1 # 6, 1 # 6, 3 # 6)]%Q.
Proof. vm_compute. reflexivity. Qed.


(** The tetrahedron with two faces wound the wrong way: stage 6 turns
    those two round and all normals point away from the inside. *)
Example tetrahedron_normals :
  MeshOps.unify_normals MeshOps.volume_heuristic StandIn.tetrahedron
  = mkPolyData (points StandIn.tetrahedron)
      [(0, 2, 1); (0, 1, 3); (0, 3, 2); (1, 2, 3)]%nat
      (Some [(0, 0, -1); (0, -1, 0); (-1, 0, 0); (1, 1, 1)]%Q).
Proof. vm_compute. reflexivity. Qed.

(** * Further properties of the scripts *)

(** ** segment.py *)

Module ExtractionFacts.
Import Segment SegmentFacts ComponentFacts.

Lemma np_sum_voxel_count L a :
  np_sum (binary_threshold L L 1 0 a) = voxel_count a L.
Proof.
  unfold voxel_count. induction a as [|v a IH]; [reflexivity|].
  simpl. rewrite IH.
  destruct (decide (v = L)) as [->|Hne].
  - rewrite filter_cons_True by reflexivity. rewrite Z.leb_refl.
    cbn [andb length]. rewrite Nat2Z.inj_succ. lia.
  - rewrite filter_cons_False by assumption.
    destruct (L <=? v) eqn:E1, (v <=? L) eqn:E2; cbn [andb]; lia.
Qed.

Local Arguments voxel_count : simpl never.

Lemma for_components_fresh_any a out size ids acc st :
  readonly st = ∅ ->
  NoDup ids ->
  (forall id, In id ids -> 0 < id /\ fs st !! component_path out id = None) ->
  for_components a out size ids acc st
  = (Ok (acc ++ map (component_path out)
                  (filter (fun id => size <= voxel_count a id) ids)),
     written a out (filter (fun id => size <= voxel_count a id) ids) st).
Proof.
  revert acc st.
  induction ids as [|id ids IH]; intros acc st Hro Hnd Hfresh; simpl.
  - unfold ret. by rewrite app_nil_r.
  - destruct (Hfresh id) as [Hid Hnone]; [by left|].
    inversion Hnd as [|? ? Hnotin Hnd']; subst.
    unfold bind at 1, process_component.
    rewrite np_sum_voxel_count.
    destruct (decide (size <= voxel_count a id)) as [Hle|Hgt].
    + rewrite filter_cons_True by assumption.
      replace (size <=? voxel_count a id) with true by (symmetry; by apply Z.leb_le).
      unfold try_except, bind at 1, path_exists.
      rewrite bool_decide_eq_false_2 by (rewrite Hnone; by intros [? ?]).
      unfold bind at 1, ret at 1, bind at 1, write_file.
      rewrite bool_decide_eq_false_2 by (rewrite Hro; set_solver).
      unfold ret at 1.
      rewrite IH; simpl; try assumption.
      * by rewrite <- app_assoc.
      * intros j Hj. destruct (Hfresh j) as [Hjpos Hjnone]; [by right|].
        split; [assumption|].
        rewrite lookup_insert_ne; [assumption|].
        intros E. apply component_path_inj in E; try assumption.
        subst. apply Hnotin. by apply list_elem_of_In.
    + rewrite filter_cons_False by assumption.
      replace (size <=? voxel_count a id) with false by (symmetry; apply Z.leb_gt; lia).
      unfold try_except, ret.
      apply IH; try assumption.
      intros j Hj. apply Hfresh. by right.
Qed.

Lemma extraction_frame_refl out st : extraction_frame out st st.
Proof. repeat split. Qed.

Lemma extraction_frame_trans out st1 st2 st3 :
  extraction_frame out st1 st2 -> extraction_frame out st2 st3 ->
  extraction_frame out st1 st3.
Proof.
  intros (Hf & Hr & Ho) (Hf' & Hr' & Ho'). repeat split; try congruence.
  intros p Hp. rewrite Hf' by assumption. by apply Hf.
Qed.

(** One pass of the loop, case by case. *)
Lemma process_component_cases a out size id st :
  process_component a out size id st =
  if size <=? voxel_count a id then
    if bool_decide (is_Some (fs st !! component_path out id)) then
      match tty st with
      | None => (SysExit 1, st)
      | Some lines =>
          if String.eqb (PyStr.lower (PyStr.strip (hd EmptyString lines))) "y"
          then write_component a out id (after_reply st)
          else (Ok None, after_reply st)
      end
    else write_component a out id st
  else (Ok None, st).
Proof.
  unfold process_component. rewrite np_sum_voxel_count.
  destruct (size <=? voxel_count a id); [|reflexivity].
  unfold try_except, bind at 1, path_exists.
  destruct (bool_decide (is_Some (fs st !! component_path out id))).
  - unfold bind at 1.
    destruct (tty st) as [lines|] eqn:Htty.
    + rewrite (confirm_overwrite_spec _ _ Htty).
      destruct (String.eqb _ _); [|reflexivity].
      unfold bind, write_file, write_component.
      destruct (bool_decide _); reflexivity.
    + unfold confirm_overwrite, bind, tty_readline. rewrite Htty. reflexivity.
  - unfold bind, ret, write_file, write_component.
    destruct (bool_decide _); reflexivity.
Qed.

Lemma write_component_frame a out id st0 st :
  extraction_frame out st0 st ->
  extraction_frame out st0 (snd (write_component a out id st)) /\
  ((exists r, fst (write_component a out id st) = Ok r) \/
   fst (write_component a out id st) = SysExit 1).
Proof.
  intros H. unfold write_component. destruct (bool_decide _); simpl.
  - split; [assumption | by right].
  - split; [|left; by eexists].
    eapply extraction_frame_trans; [exact H|].
    repeat split. intros p Hp. simpl. apply lookup_insert_ne. by apply not_eq_sym.
Qed.

Lemma process_component_frame a out size id st :
  extraction_frame out st (snd (process_component a out size id st)) /\
  ((exists r, fst (process_component a out size id st) = Ok r) \/
   fst (process_component a out size id st) = SysExit 1).
Proof.
  rewrite process_component_cases.
  destruct (size <=? voxel_count a id);
    [|split; [apply extraction_frame_refl | left; by eexists]].
  destruct (bool_decide _).
  - destruct (tty st) as [lines|].
    + destruct (String.eqb _ _).
      * apply write_component_frame. repeat split.
      * split; [repeat split | left; by eexists].
    + split; [apply extraction_frame_refl | by right].
  - apply write_component_frame, extraction_frame_refl.
Qed.

Lemma for_components_frame a out size ids acc st :
  extraction_frame out st (snd (for_components a out size ids acc st)) /\
  ((exists r, fst (for_components a out size ids acc st) = Ok r) \/
   fst (for_components a out size ids acc st) = SysExit 1).
Proof.
  revert acc st. induction ids as [|id ids IH]; intros acc st; simpl.
  - split; [apply extraction_frame_refl | left; by eexists].
  - unfold bind.
    destruct (process_component_frame a out size id st) as [Hf Hr].
    destruct (process_component a out size id st) as [[r| |c] st1]; simpl in *.
    + destruct (IH (match r with Some f => acc ++ [f] | None => acc end) st1) as [Hf' Hr'].
      split; [eapply extraction_frame_trans; eassumption | exact Hr'].
    + destruct Hr as [[? [=]] | [=]].
    + split; [assumption|]. destruct Hr as [[? [=]] | [= ->]]. by right.
Qed.

Lemma read_array_state input_file st :
  snd (read_array input_file st) = st /\
  ((exists a, fst (read_array input_file st) = Ok a) \/
   (exists e, fst (read_array input_file st) = Raise e)).
Proof.
  unfold read_array. destruct (fs st !! input_file) as [[a|a|m]|]; simpl; eauto 6.
Qed.

Lemma extract_unreadable input_file out size st e st' :
  read_array input_file st = (Raise e, st') ->
  extract_connected_components input_file out size st = (SysExit 1, st').
Proof.
  intros H. unfold extract_connected_components, bind, try_except. by rewrite H.
Qed.

Lemma extract_frame_and_status input_file out size st :
  let r := extract_connected_components input_file out size st in
  (extraction_frame out st (snd r) /\ (fst r = SysExit 0 \/ fst r = SysExit 1)) \/
  (fst r = Ok tt /\
   exists components st1,
     extraction_frame out st st1 /\
     snd r = mkProcess (fs st1) (readonly st1) (tty st1) (stdout st1 ++ components)).
Proof.
  intros r.
  destruct (read_array_state input_file st) as [Hst [[a Ha] | [e He]]];
    destruct (read_array input_file st) as [res st0] eqn:Hread; simpl in *; subst.
  2:{ left. subst r. rewrite (extract_unreadable _ _ _ _ _ _ Hread).
      split; [apply extraction_frame_refl | by right]. }
  subst r. rewrite (extract_unfold _ _ _ _ _ Hread).
  destruct (_ =? 0); [left; split; [apply extraction_frame_refl | by right]|].
  destruct (for_components_frame a out size
              (range 1 (Z.of_nat (length (np_unique a)) + 1)) [] st) as [Hf Hr].
  destruct (for_components a out size _ [] st) as [[cs| |c] st1]; simpl in *.
  - destruct (1 <=? Z.of_nat (length cs)).
    + right. rewrite print_all_spec. split; [reflexivity|]. eauto.
    + left. split; [assumption | by left].
  - destruct Hr as [[? [=]] | [=]].
  - left. split; [assumption|]. destruct Hr as [[? [=]] | [= ->]]. by right.
Qed.

(** A pass keeps the files there are, and a path it returns names a
    file that exists. *)
Lemma process_component_files a out size id st r st' :
  process_component a out size id st = (Ok r, st') ->
  (forall c, is_Some (fs st !! c) -> is_Some (fs st' !! c)) /\
  (forall f, r = Some f -> is_Some (fs st' !! f)).
Proof.
  rewrite process_component_cases.
  assert (Hw : forall s, write_component a out id s = (Ok r, st') ->
            (forall c, is_Some (fs s !! c) -> is_Some (fs st' !! c)) /\
            (forall f, r = Some f -> is_Some (fs st' !! f))).
  { intros s. unfold write_component. destruct (bool_decide _); [discriminate|].
    intros [= <- <-]. simpl. split.
    - intros c Hc. rewrite lookup_insert. destruct (decide _); [by eexists | exact Hc].
    - intros f [= <-]. rewrite lookup_insert_eq. by eexists. }
  destruct (size <=? voxel_count a id).
  - destruct (bool_decide _).
    + destruct (tty st) as [lines|]; [|discriminate].
      destruct (String.eqb _ _); [intros H; exact (Hw _ H)|].
      intros [= <- <-]. split; [auto | discriminate].
    + apply Hw.
  - intros [= <- <-]. split; [auto | discriminate].
Qed.

Lemma for_components_files a out size ids acc st cs st' :
  for_components a out size ids acc st = (Ok cs, st') ->
  (forall c, In c acc -> is_Some (fs st !! c)) ->
  forall c, In c cs -> is_Some (fs st' !! c).
Proof.
  revert acc st. induction ids as [|id ids IH]; intros acc st; simpl.
  - intros [= <- <-]. auto.
  - unfold bind.
    destruct (process_component a out size id st) as [[r| |] st1] eqn:E; try discriminate.
    destruct (process_component_files _ _ _ _ _ _ _ E) as [Hkeep Hnew].
    intros Hrun Hacc. apply (IH _ _ Hrun).
    intros c Hc. destruct r as [f|].
    + apply in_app_or in Hc as [Hc | [<- | []]]; [apply Hkeep, Hacc, Hc | by apply Hnew].
    + apply Hkeep, Hacc, Hc.
Qed.

(** The run on a fresh output folder with writes that succeed. *)
Lemma extract_fresh_run input_file out size st a :
  read_array input_file st = (Ok a, st) ->
  length (np_unique a) <> 1%nat ->
  readonly st = ∅ ->
  (forall id, fs st !! component_path out id = None) ->
  extract_connected_components input_file out size st =
  match large_enough a size with
  | [] => (SysExit 0, written a out [] st)
  | ids =>
      (Ok tt,
       mkProcess (fs (written a out ids st)) (readonly (written a out ids st))
         (tty (written a out ids st))
         (stdout st ++ map (component_path out) ids))
  end.
Proof.
  intros Hread Hlen Hro Hfresh.
  rewrite (extract_unfold _ _ _ _ _ Hread).
  replace (Z.of_nat (length (np_unique a)) - 1 =? 0) with false
    by (symmetry; apply Z.eqb_neq; lia).
  rewrite (for_components_fresh_any a out size _ [] st Hro (range_NoDup _ _))
    by (intros id Hid; apply range_In in Hid; split; [lia | apply Hfresh]).
  rewrite app_nil_l. fold (component_ids a). fold (large_enough a size).
  destruct (large_enough a size) as [|id ids] eqn:E; [reflexivity|].
  replace (1 <=? Z.of_nat (length (map (component_path out) (id :: ids))))
    with true by (symmetry; apply Z.leb_le; rewrite length_map; simpl length; lia).
  rewrite print_all_spec. by rewrite written_stdout.
Qed.

Lemma filter_sublist_impl (P Q : Z -> Prop)
    `{!forall x, Decision (P x)} `{!forall x, Decision (Q x)} (l : list Z) :
  (forall x, P x -> Q x) -> filter P l `sublist_of` filter Q l.
Proof.
  intros Himp. induction l as [|x l IH]; [constructor|].
  destruct (decide (P x)) as [HP|HP].
  - rewrite !filter_cons_True by auto. by constructor.
  - rewrite (filter_cons_False P) by assumption.
    destruct (decide (Q x)).
    + rewrite filter_cons_True by assumption. by constructor.
    + by rewrite filter_cons_False.
Qed.

Lemma np_unique_constant v a :
  a <> [] -> Forall (fun x => x = v) a -> np_unique a = [v].
Proof.
  induction a as [|x a IH]; [congruence|].
  intros _ H. inversion H as [|? ? -> Ha]; subst.
  destruct a as [|y a]; [reflexivity|].
  simpl in *. rewrite IH by (congruence || assumption).
  simpl. rewrite Z.ltb_irrefl, Z.eqb_refl. reflexivity.
Qed.

Lemma extract_ok_output input_file out size st :
  fst (extract_connected_components input_file out size st) = Ok tt ->
  exists components,
    components <> [] /\
    stdout (snd (extract_connected_components input_file out size st))
    = stdout st ++ components /\
    forall c, In c components ->
      is_Some (fs (snd (extract_connected_components input_file out size st)) !! c).
Proof.
  destruct (read_array_state input_file st) as [Hst [[a Ha] | [e He]]];
    destruct (read_array input_file st) as [res st0] eqn:Hread; simpl in *; subst.
  2:{ rewrite (extract_unreadable _ _ _ _ _ _ Hread). discriminate. }
  rewrite (extract_unfold _ _ _ _ _ Hread).
  destruct (_ =? 0); [discriminate|].
  destruct (for_components_frame a out size
              (range 1 (Z.of_nat (length (np_unique a)) + 1)) [] st) as [(_ & _ & Hout) _].
  destruct (for_components a out size _ [] st) as [[cs| |c] st1] eqn:Hrun;
    try discriminate.
  destruct (1 <=? Z.of_nat (length cs)) eqn:Hlen; [|discriminate].
  rewrite print_all_spec. intros _. exists cs. simpl in *.
  split; [intros ->; discriminate|]. split; [by rewrite Hout|].
  apply (for_components_files _ _ _ _ _ _ _ _ Hrun). intros c [].
Qed.

End ExtractionFacts.

(** X1: on an output folder without component files and with writes
    that succeed, the extractor emits exactly the ids from 1 to the
    number of distinct voxel values whose voxel count is at least
    [component_size], in ascending order: their files are written, their
    paths printed; if there is none it ends with status 0 and prints
    nothing. *)
Theorem extractor_emits_large_enough
    (input_file out : string) (size : Z) (st : Process) (a : list Z) :
  Segment.read_array input_file st = (Ok a, st) ->
  length (Segment.np_unique a) <> 1%nat ->
  readonly st = ∅ ->
  (forall id, fs st !! Segment.component_path out id = None) ->
  let r := Segment.extract_connected_components input_file out size st in
  (forall id, In id (large_enough a size) ->
     fs (snd r) !! Segment.component_path out id
     = Some (LabelVolume (map (fun v => if v =? id then 1 else 0) a))) /\
  (forall p, (forall id, In id (large_enough a size) -> p <> Segment.component_path out id) ->
     fs (snd r) !! p = fs st !! p) /\
  (large_enough a size <> [] ->
   fst r = Ok tt /\
   stdout (snd r) = stdout st ++ map (Segment.component_path out) (large_enough a size)) /\
  (large_enough a size = [] -> fst r = SysExit 0 /\ stdout (snd r) = stdout st).
Proof.
  intros Hread Hlen Hro Hfresh r. subst r.
  rewrite (ExtractionFacts.extract_fresh_run _ _ _ _ _ Hread Hlen Hro Hfresh).
  assert (Hpos : forall j, In j (large_enough a size) -> 0 < j).
  { intros j Hj. apply list_elem_of_In, list_elem_of_filter in Hj as [_ Hj].
    apply list_elem_of_In, ComponentFacts.range_In in Hj. lia. }
  assert (Hfiles : forall id, In id (large_enough a size) ->
            fs (written a out (large_enough a size) st) !! Segment.component_path out id
            = Some (LabelVolume (map (fun v => if v =? id then 1 else 0) a))).
  { intros id Hid. rewrite <- ComponentFacts.binary_threshold_marks.
    apply ComponentFacts.written_lookup; [by apply Hpos | exact Hpos | by left]. }
  assert (Hother : forall p,
            (forall id, In id (large_enough a size) -> p <> Segment.component_path out id) ->
            fs (written a out (large_enough a size) st) !! p = fs st !! p).
  { intros p. generalize (large_enough a size) st. clear.
    induction l as [|j l IH]; intros st Hp; [reflexivity|]. simpl.
    rewrite IH by (intros id Hid; apply Hp; by right). simpl.
    apply lookup_insert_ne. apply not_eq_sym, Hp. by left. }
  destruct (large_enough a size) as [|id ids].
  - repeat split; intros; try congruence; auto.
  - split; [exact Hfiles|]. split; [exact Hother|]. repeat split; congruence.
Qed.

Lemma extractor_emits_large_enough_witness :
  let r := Segment.extract_connected_components "/in/v.mha" "/out" 2 three_labels in
  fst r = Ok tt /\ stdout (snd r) = ["/out/Component1.mha"; "/out/Component3.mha"].
Proof.
  intros r.
  destruct (extractor_emits_large_enough "/in/v.mha" "/out" 2 three_labels
              [0; 1; 1; 1; 2; 3; 3]) as (_ & _ & Hsome & _).
  - reflexivity.
  - vm_compute. discriminate.
  - reflexivity.
  - intros id. apply lookup_singleton_ne. vm_compute. discriminate.
  - apply Hsome. vm_compute. discriminate.
Defined.

(** X2: on such a folder the output shrinks as the threshold grows: the
    paths printed with the larger [component_size] are a sublist of
    those printed with the smaller one. *)
Theorem extractor_output_shrinks
    (input_file out : string) (size1 size2 : Z) (st : Process) (a : list Z) :
  Segment.read_array input_file st = (Ok a, st) ->
  length (Segment.np_unique a) <> 1%nat ->
  readonly st = ∅ ->
  (forall id, fs st !! Segment.component_path out id = None) ->
  size1 <= size2 ->
  exists l1 l2,
    stdout (snd (Segment.extract_connected_components input_file out size1 st))
    = stdout st ++ l1 /\
    stdout (snd (Segment.extract_connected_components input_file out size2 st))
    = stdout st ++ l2 /\
    l2 `sublist_of` l1.
Proof.
  intros Hread Hlen Hro Hfresh Hle.
  exists (map (Segment.component_path out) (large_enough a size1)),
         (map (Segment.component_path out) (large_enough a size2)).
  rewrite !(ExtractionFacts.extract_fresh_run _ _ _ _ _ Hread Hlen Hro Hfresh).
  repeat split.
  - destruct (large_enough a size1); simpl; [by rewrite app_nil_r | reflexivity].
  - destruct (large_enough a size2); simpl; [by rewrite app_nil_r | reflexivity].
  - apply (fmap_sublist (Segment.component_path out)).
    apply ExtractionFacts.filter_sublist_impl. intros x. lia.
Qed.

Lemma extractor_output_shrinks_witness :
  exists l1 l2,
    stdout (snd (Segment.extract_connected_components "/in/v.mha" "/out" 1 three_labels))
    = stdout three_labels ++ l1 /\
    stdout (snd (Segment.extract_connected_components "/in/v.mha" "/out" 3 three_labels))
    = stdout three_labels ++ l2 /\
    l2 `sublist_of` l1.
Proof.
  apply (extractor_output_shrinks "/in/v.mha" "/out" 1 3 three_labels
           [0; 1; 1; 1; 2; 3; 3]).
  - reflexivity.
  - vm_compute. discriminate.
  - reflexivity.
  - intros id. apply lookup_singleton_ne. vm_compute. discriminate.
  - lia.
Defined.



(** X4: extraction ends with status 0 or 1 and never with an uncaught
    exception; it prints all or nothing: unless it completes, nothing is
    printed (whatever was written before a failure stays), and when it
    completes it prints at least one path and every path printed names
    a file that exists. *)
Theorem extraction_prints_all_or_nothing
    (input_file out : string) (size : Z) (st : Process) :
  let r := Segment.extract_connected_components input_file out size st in
  (fst r = Ok tt \/ fst r = SysExit 0 \/ fst r = SysExit 1) /\
  (fst r <> Ok tt -> stdout (snd r) = stdout st) /\
  (fst r = Ok tt ->
   exists components,
     components <> [] /\ stdout (snd r) = stdout st ++ components /\
     forall c, In c components -> is_Some (fs (snd r) !! c)).
Proof.
  intros r. split; [|split].
  - destruct (ExtractionFacts.extract_frame_and_status input_file out size st)
      as [[_ [H|H]] | [H _]]; auto.
  - destruct (ExtractionFacts.extract_frame_and_status input_file out size st)
      as [[(_ & _ & H) _] | [H _]]; [auto | contradiction].
  - apply ExtractionFacts.extract_ok_output.
Qed.

(** X5: a volume all of whose voxels carry one and the same value -
    background or not - is reported empty: extraction ends with status 1
    before anything is asked, written or printed. *)
Theorem single_valued_volume_is_fatal
    (input_file out : string) (size : Z) (st : Process) (a : list Z) (v : Z) :
  Segment.read_array input_file st = (Ok a, st) ->
  a <> [] -> Forall (fun x => x = v) a ->
  Segment.extract_connected_components input_file out size st = (SysExit 1, st).
Proof.
  intros Hread Hne Hall.
  rewrite (SegmentFacts.extract_unfold _ _ _ _ _ Hread).
  by rewrite (ExtractionFacts.np_unique_constant v a Hne Hall).
Qed.

Lemma single_valued_volume_is_fatal_witness :
  let st := mkProcess {[ "/in/v.mha" := LabelVolume [5; 5; 5] ]} ∅ (Some []) [] in
  Segment.extract_connected_components "/in/v.mha" "/out" 1 st = (SysExit 1, st).
Proof.
  intros st.
  apply (single_valued_volume_is_fatal "/in/v.mha" "/out" 1 st [5; 5; 5] 5).
  - reflexivity.
  - discriminate.
  - repeat constructor.
Defined.

(** ** convert.py *)

Module ConvertFacts.
Import Convert.

Lemma read_image_state p st :
  snd (read_image p st) = st /\
  ((exists image, fst (read_image p st) = Ok image) \/
   (exists e, fst (read_image p st) = Raise e)).
Proof.
  unfold read_image. destruct (fs st !! p) as [[a|a|m]|]; simpl; eauto 6.
Qed.

(** The conversion, case by case. *)
Lemma convert_cases input_nii_path output_mha_path st :
  convert_nii_to_mha input_nii_path output_mha_path st =
  match fst (read_image input_nii_path st) with
  | Ok image =>
      if bool_decide (is_Some (fs st !! converted_path input_nii_path output_mha_path)) then
        match tty st with
        | None => (SysExit 1, st)
        | Some lines =>
            if String.eqb (PyStr.lower (PyStr.strip (hd EmptyString lines))) "y"
            then write_converted (converted_path input_nii_path output_mha_path) image
                   (after_reply st)
            else (SysExit 0, after_reply st)
        end
      else write_converted (converted_path input_nii_path output_mha_path) image st
  | _ => (SysExit 1, st)
  end.
Proof.
  unfold convert_nii_to_mha, converted_path.
  destruct (read_image_state input_nii_path st) as [Hst [[image Hi] | [e He]]];
    destruct (read_image input_nii_path st) as [res st0] eqn:Hread; simpl in *; subst.
  2:{ unfold try_except, bind. rewrite Hread. reflexivity. }
  unfold try_except at 1, bind at 1. rewrite Hread.
  unfold bind at 1, path_exists.
  destruct (bool_decide _).
  - unfold bind at 1, bind at 1.
    destruct (tty st) as [lines|] eqn:Htty.
    + rewrite (confirm_overwrite_spec _ _ Htty).
      destruct (String.eqb _ _); [|reflexivity].
      unfold ret, bind, write_file, write_converted.
      destruct (bool_decide _); reflexivity.
    + unfold confirm_overwrite, bind, tty_readline. rewrite Htty. reflexivity.
  - unfold bind, ret, write_file, write_converted.
    destruct (bool_decide _); reflexivity.
Qed.

End ConvertFacts.

(** X6: when the input can be read, the target can be written, and the
    target is new or the operator consents to the overwrite, the
    conversion stores the image as it was read under
    [<output dir>/<input base name without extension>.mha] and prints
    that path. *)
Theorem conversion_copies_image
    (input_nii_path output_mha_path : string) (st : Process) (image : File) :
  Convert.read_image input_nii_path st = (Ok image, st) ->
  converted_path input_nii_path output_mha_path ∉ readonly st ->
  fs st !! converted_path input_nii_path output_mha_path = None \/
  (exists lines, tty st = Some lines /\
                 PyStr.lower (PyStr.strip (hd EmptyString lines)) = "y") ->
  let r := Convert.convert_nii_to_mha input_nii_path output_mha_path st in
  fst r = Ok tt /\
  fs (snd r) = <[converted_path input_nii_path output_mha_path := image]> (fs st) /\
  stdout (snd r) = stdout st ++ [converted_path input_nii_path output_mha_path].
Proof.
  intros Hread Hrw Hgo. cbv zeta.
  rewrite ConvertFacts.convert_cases, Hread. simpl fst.
  assert (Hw : forall s, fs s = fs st -> readonly s = readonly st -> stdout s = stdout st ->
            let w := write_converted (converted_path input_nii_path output_mha_path) image s in
            fst w = Ok tt /\
            fs (snd w) = <[converted_path input_nii_path output_mha_path := image]> (fs st) /\
            stdout (snd w)
            = stdout st ++ [converted_path input_nii_path output_mha_path]).
  { intros s Hf Hr Ho. unfold write_converted.
    rewrite bool_decide_eq_false_2 by (by rewrite Hr). simpl.
    by rewrite Hf, Ho. }
  destruct (bool_decide _) eqn:Hex.
  - destruct Hgo as [Hnone | (lines & Htty & Hyes)].
    + apply bool_decide_eq_true_1 in Hex. rewrite Hnone in Hex. by destruct Hex.
    + rewrite Htty. apply String.eqb_eq in Hyes. rewrite Hyes. by apply Hw.
  - by apply Hw.
Qed.

Lemma conversion_copies_image_witness :
  let r := Convert.convert_nii_to_mha "/in/scan.nii" "/out" (prompt_state " Y ") in
  fst r = Ok tt /\
  fs (snd r) !! "/out/scan.mha" = Some (LabelVolume [0; 1; 1]) /\
  stdout (snd r) = ["/out/scan.mha"].
Proof.
  destruct (conversion_copies_image "/in/scan.nii" "/out" (prompt_state " Y ")
              (LabelVolume [0; 1; 1])) as (H1 & H2 & H3).
  - reflexivity.
  - vm_compute. set_solver.
  - right. exists [" Y "]. split; reflexivity.
  - split; [exact H1|]. split; [|exact H3].
    cbv zeta. rewrite H2. apply lookup_insert_eq.
Defined.

(** X7: a conversion ends with status 0 or 1, never with an uncaught
    exception.  Unless it completes it writes and prints nothing; when
    it completes it has printed exactly the target, which exists; and
    it ends with status 0 without output only after the operator has
    declined to overwrite an existing target. *)
Theorem conversion_outcomes (input_nii_path output_mha_path : string) (st : Process) :
  let r := Convert.convert_nii_to_mha input_nii_path output_mha_path st in
  let target := converted_path input_nii_path output_mha_path in
  (fst r = Ok tt \/ fst r = SysExit 0 \/ fst r = SysExit 1) /\
  (fst r <> Ok tt -> fs (snd r) = fs st /\ stdout (snd r) = stdout st) /\
  (fst r = Ok tt -> stdout (snd r) = stdout st ++ [target] /\ is_Some (fs (snd r) !! target)) /\
  (fst r = SysExit 0 ->
   is_Some (fs st !! target) /\
   exists lines, tty st = Some lines /\
                 PyStr.lower (PyStr.strip (hd EmptyString lines)) <> "y").
Proof.
  cbv zeta. rewrite ConvertFacts.convert_cases.
  assert (Hw : forall image s, fs s = fs st -> stdout s = stdout st ->
            let w := write_converted (converted_path input_nii_path output_mha_path) image s in
            (fst w = Ok tt \/ fst w = SysExit 1) /\
            (fst w <> Ok tt -> fs (snd w) = fs st /\ stdout (snd w) = stdout st) /\
            (fst w = Ok tt ->
             stdout (snd w) = stdout st ++ [converted_path input_nii_path output_mha_path] /\
             is_Some (fs (snd w) !! converted_path input_nii_path output_mha_path))).
  { intros image s Hf Ho. unfold write_converted. destruct (bool_decide _); simpl.
    - split; [by right|]. split; [auto|discriminate].
    - split; [by left|]. split; [congruence|]. intros _.
      rewrite Ho, lookup_insert_eq. split; [reflexivity | by eexists]. }
  assert (Hwrite : forall image s, fs s = fs st -> stdout s = stdout st ->
            let w := write_converted (converted_path input_nii_path output_mha_path) image s in
            (fst w = Ok tt \/ fst w = SysExit 0 \/ fst w = SysExit 1) /\
            (fst w <> Ok tt -> fs (snd w) = fs st /\ stdout (snd w) = stdout st) /\
            (fst w = Ok tt ->
             stdout (snd w) = stdout st ++ [converted_path input_nii_path output_mha_path] /\
             is_Some (fs (snd w) !! converted_path input_nii_path output_mha_path)) /\
            (fst w = SysExit 0 ->
             is_Some (fs st !! converted_path input_nii_path output_mha_path) /\
             exists lines, tty st = Some lines /\
                           PyStr.lower (PyStr.strip (hd EmptyString lines)) <> "y")).
  { intros image s Hf Ho. destruct (Hw image s Hf Ho) as (Hs & H2 & H3).
    split; [destruct Hs; auto|]. split; [exact H2|]. split; [exact H3|].
    intros H0. destruct Hs as [H|H]; rewrite H in H0; discriminate. }
  assert (Hfatal : forall s : Process, fs s = fs st -> stdout s = stdout st ->
            let w := (@SysExit unit 1, s) in
            (fst w = Ok tt \/ fst w = SysExit 0 \/ fst w = SysExit 1) /\
            (fst w <> Ok tt -> fs (snd w) = fs st /\ stdout (snd w) = stdout st) /\
            (fst w = Ok tt ->
             stdout (snd w) = stdout st ++ [converted_path input_nii_path output_mha_path] /\
             is_Some (fs (snd w) !! converted_path input_nii_path output_mha_path)) /\
            (fst w = SysExit 0 ->
             is_Some (fs st !! converted_path input_nii_path output_mha_path) /\
             exists lines, tty st = Some lines /\
                           PyStr.lower (PyStr.strip (hd EmptyString lines)) <> "y")).
  { intros s Hf Ho. simpl. repeat split; auto; discriminate. }
  destruct (fst (Convert.read_image input_nii_path st)) as [image| |];
    [|by apply Hfatal..].
  destruct (bool_decide _) eqn:Hex; [|by apply Hwrite].
  apply bool_decide_eq_true_1 in Hex.
  destruct (tty st) as [lines|] eqn:Htty; [|by apply Hfatal].
  destruct (String.eqb_spec (PyStr.lower (PyStr.strip (hd EmptyString lines))) "y")
    as [Hy|Hn]; [by apply Hwrite|].
  simpl. split; [auto|]. split; [auto|]. split; [discriminate|]. eauto.
Qed.

(** ** The list-processing stages: filter.py, generate_net.py, optimize_net.py *)

Module StageFacts.









End StageFacts.




(** ** optimize_net.py: the regions that are kept *)

Module RegionFacts.
Import OptimizeNet.

Lemma for_regions_filter T P cleaned (regions : list PolyData) k inputs :
  (forall i r, regions !! i = Some r ->
     ExtractSpecifiedRegion T (k + i) cleaned = Done r) ->
  for_regions T P cleaned (seq k (length regions)) inputs
  = Done (inputs ++
          filter (fun r => artifact_tolerance P <= GetNumberOfCells r) regions).
Proof.
  revert k inputs. induction regions as [|r regions IH]; intros k inputs H; simpl.
  - by rewrite app_nil_r.
  - rewrite <- (Nat.add_0_r k) at 1. rewrite (H 0%nat r eq_refl).
    assert (Hrest : forall i r', regions !! i = Some r' ->
              ExtractSpecifiedRegion T (S k + i) cleaned = Done r').
    { intros i r' Hi. replace (S k + i)%nat with (k + S i)%nat by lia. by apply H. }
    destruct (decide (artifact_tolerance P <= GetNumberOfCells r)) as [Hle|Hgt].
    + rewrite filter_cons_True by assumption.
      replace (artifact_tolerance P <=? GetNumberOfCells r) with true
        by (symmetry; by apply Z.leb_le).
      rewrite (IH (S k) _ Hrest). by rewrite <- app_assoc.
    + rewrite filter_cons_False by assumption.
      replace (artifact_tolerance P <=? GetNumberOfCells r) with false
        by (symmetry; apply Z.leb_gt; lia).
      apply (IH (S k) _ Hrest).
Qed.

End RegionFacts.

(** X11: of the connected regions of the cleaned mesh the optimizer
    keeps exactly those with at least [artifact_tolerance] cells, in the
    order of their region ids, and hands them to the append filter. *)
Theorem regions_kept_by_cell_count
    (T : Toolkit) (P : OptimizeNet.Params) (cleaned : PolyData)
    (regions : list PolyData) (st : Process) :
  GetNumberOfExtractedRegions T cleaned = Done (length regions) ->
  (forall region_id r, regions !! region_id = Some r ->
     ExtractSpecifiedRegion T region_id cleaned = Done r) ->
  OptimizeNet.retained_regions T P cleaned st
  = (Ok (filter (fun r => OptimizeNet.artifact_tolerance P <= OptimizeNet.GetNumberOfCells r)
           regions), st).
Proof.
  intros Hnum Hregions.
  unfold OptimizeNet.retained_regions, bind, call. rewrite Hnum.
  by rewrite (RegionFacts.for_regions_filter T P cleaned regions 0 [] Hregions).
Qed.

Lemma regions_kept_by_cell_count_witness :
  OptimizeNet.retained_regions StandIn.toolkit lenient_params StandIn.tetrahedron one_small_mesh
  = (Ok [StandIn.tetrahedron], one_small_mesh).
Proof.
  apply (regions_kept_by_cell_count StandIn.toolkit lenient_params StandIn.tetrahedron
           [StandIn.tetrahedron] one_small_mesh).
  - reflexivity.
  - intros [|i] r H; [by injection H as <- | discriminate].
Defined.

(** ** File names across the stages *)

Module PathFacts.
Import PyStr.

Lemma app_cons c (a b : string) : String c a +:+ b = String c (a +:+ b).
Proof. reflexivity. Qed.

Lemma app_assoc_s (a b c : string) : (a +:+ b) +:+ c = a +:+ (b +:+ c).
Proof. induction a as [|x a IH]; [reflexivity|]. rewrite !app_cons. by rewrite IH. Qed.

Lemma has_char_app c (x y : string) :
  has_char c (x +:+ y) = has_char c x || has_char c y.
Proof.
  induction x as [|a x IH]; [reflexivity|].
  rewrite app_cons. simpl. rewrite IH. by rewrite orb_assoc.
Qed.

Lemma has_char_take c i s : has_char c s = false -> has_char c (take i s) = false.
Proof.
  revert s. induction i as [|i IH]; intros [|a s]; simpl; try reflexivity.
  intros H. apply orb_false_iff in H as [-> H]. simpl. by apply IH.
Qed.

Lemma rfind_lower c s : -1 <= rfind c s.
Proof.
  induction s as [|a s IH]; simpl; [lia|].
  destruct (0 <=? rfind c s) eqn:E; [lia|]. destruct (Ascii.eqb a c); lia.
Qed.

Lemma rfind_absent c s : has_char c s = false -> rfind c s = -1.
Proof.
  induction s as [|a s IH]; simpl; [reflexivity|].
  intros H. apply orb_false_iff in H as [Ha H]. rewrite (IH H), Ha. reflexivity.
Qed.

Lemma rfind_app_absent c x n :
  has_char c n = false -> rfind c (x +:+ n) = rfind c x.
Proof.
  intros H. induction x as [|a x IH].
  - simpl. by apply rfind_absent.
  - rewrite app_cons. simpl. by rewrite IH.
Qed.

Lemma rfind_last c y t :
  has_char c t = false -> rfind c (y +:+ String c t) = Z.of_nat (String.length y).
Proof.
  intros H. induction y as [|a y IH].
  - simpl. rewrite (rfind_absent _ _ H). simpl. by rewrite Ascii.eqb_refl.
  - rewrite app_cons. simpl rfind. rewrite IH.
    replace (0 <=? Z.of_nat (String.length y)) with true by (symmetry; apply Z.leb_le; lia).
    simpl String.length. lia.
Qed.

Lemma rfind_points_at c s :
  0 <= rfind c s -> exists t, drop (Z.to_nat (rfind c s)) s = String c t.
Proof.
  induction s as [|a s IH]; simpl; [lia|].
  destruct (0 <=? rfind c s) eqn:E.
  - apply Z.leb_le in E. intros _. destruct (IH E) as [t Ht].
    exists t. replace (Z.to_nat (rfind c s + 1)) with (S (Z.to_nat (rfind c s))) by lia.
    exact Ht.
  - destruct (Ascii.eqb_spec a c) as [->|]; [|lia]. intros _. by exists s.
Qed.

Lemma drop_app_length (x y : string) : drop (String.length x) (x +:+ y) = y.
Proof. induction x as [|a x IH]; [by destruct y|]. rewrite app_cons. exact IH. Qed.

Lemma take_app_length (x y : string) : take (String.length x) (x +:+ y) = x.
Proof.
  induction x as [|a x IH]; [by destruct y|]. rewrite app_cons. simpl. by rewrite IH.
Qed.

Lemma take_drop i s : take i s +:+ drop i s = s.
Proof.
  revert s. induction i as [|i IH]; intros [|a s]; simpl; try reflexivity.
  rewrite app_cons. by rewrite IH.
Qed.

Lemma drop_no_char c i s : has_char c s = false -> has_char c (drop i s) = false.
Proof.
  revert s. induction i as [|i IH]; intros [|a s]; simpl; try reflexivity; try tauto.
  intros H. apply orb_false_iff in H as [_ H]. by apply IH.
Qed.

(** [os.path.basename] never returns a path separator. *)
Lemma basename_no_sep p : has_char sep (basename p) = false.
Proof.
  unfold basename, slice_from.
  induction p as [|a p IH]; [reflexivity|].
  simpl rfind. destruct (0 <=? rfind sep p) eqn:E.
  - apply Z.leb_le in E.
    replace (Z.to_nat (rfind sep p + 1 + 1)) with (S (Z.to_nat (rfind sep p + 1))) by lia.
    exact IH.
  - apply Z.leb_gt in E. pose proof (rfind_lower sep p) as Hl.
    assert (Hr : rfind sep p = -1) by lia. rewrite Hr in IH. simpl in IH.
    destruct (Ascii.eqb a sep) eqn:Ea; simpl.
    + exact IH.
    + by rewrite Ea, IH.
Qed.

Lemma basename_plain n : has_char sep n = false -> basename n = n.
Proof. intros H. unfold basename, slice_from. by rewrite (rfind_absent _ _ H). Qed.

Lemma basename_after_sep y n :
  has_char sep n = false -> basename (y +:+ String sep n) = n.
Proof.
  intros H. unfold basename, slice_from. rewrite (rfind_last _ _ _ H).
  replace (Z.to_nat (Z.of_nat (String.length y) + 1)) with (S (String.length y)) by lia.
  change (String sep n) with (String sep EmptyString +:+ n).
  rewrite <- app_assoc_s.
  replace (S (String.length y)) with (String.length (y +:+ String sep EmptyString)).
  - apply drop_app_length.
  - rewrite ComponentFacts.append_length. simpl. lia.
Qed.

Lemma endswith_char_split c d :
  endswith_char c d = true -> exists y, d = y +:+ String c EmptyString.
Proof.
  induction d as [|a d IH]; [discriminate|].
  destruct d as [|b d].
  - simpl. intros H. apply Ascii.eqb_eq in H as ->. by exists EmptyString.
  - intros H. destruct (IH H) as [y Hy]. exists (String a y).
    rewrite app_cons. by rewrite <- Hy.
Qed.

Lemma startswith_sep_absent n :
  has_char sep n = false -> startswith (String sep EmptyString) n = false.
Proof.
  destruct n as [|a n]; [reflexivity|].
  intros H. cbn [has_char] in H. apply orb_false_iff in H as [Ha _].
  cbn [startswith].
  destruct (Ascii.eqb_spec sep a) as [<-|]; [|reflexivity].
  by rewrite Ascii.eqb_refl in Ha.
Qed.

(** [os.path.join] puts a prefix before a name without separator: the
    prefix is empty or ends with the separator, and it is the same for
    every such name. *)
Lemma join_prefix d :
  exists pre,
    (pre = EmptyString \/ exists y, pre = y +:+ String sep EmptyString) /\
    forall n, has_char sep n = false -> join d n = pre +:+ n.
Proof.
  destruct (String.eqb d EmptyString) eqn:Ed.
  - apply String.eqb_eq in Ed as ->. exists EmptyString. split; [by left|].
    intros n Hn. unfold join. by rewrite (startswith_sep_absent _ Hn).
  - destruct (endswith_char sep d) eqn:Ee.
    + exists d. split; [right; by apply endswith_char_split|].
      intros n Hn. unfold join. by rewrite (startswith_sep_absent _ Hn), Ed, Ee.
    + exists (d +:+ String sep EmptyString). split; [right; by exists d|].
      intros n Hn. unfold join. rewrite (startswith_sep_absent _ Hn), Ed, Ee.
      simpl. by rewrite app_assoc_s.
Qed.

Lemma basename_prefixed pre n :
  pre = EmptyString \/ (exists y, pre = y +:+ String sep EmptyString) ->
  has_char sep n = false -> basename (pre +:+ n) = n.
Proof.
  intros [-> | [y ->]] Hn.
  - by apply basename_plain.
  - rewrite app_assoc_s. by apply basename_after_sep.
Qed.

Lemma basename_join d n : has_char sep n = false -> basename (join d n) = n.
Proof.
  intros Hn. destruct (join_prefix d) as (pre & Hpre & Hjoin).
  rewrite (Hjoin n Hn). by apply basename_prefixed.
Qed.

(** [os.path.splitext] loses nothing, and the extension is empty or
    begins with a dot. *)
Lemma splitext_app p : fst (splitext p) +:+ snd (splitext p) = p.
Proof.
  unfold splitext. destruct (_ && _); simpl.
  - apply take_drop.
  - clear. induction p as [|a p IH]; [reflexivity|]. rewrite app_cons. by rewrite IH.
Qed.

Lemma splitext_ext p :
  snd (splitext p) = EmptyString \/ exists t, snd (splitext p) = String extsep t.
Proof.
  unfold splitext. destruct (_ && _) eqn:E; simpl; [|by left].
  right. apply andb_true_iff in E as [E _]. apply Z.ltb_lt in E.
  pose proof (rfind_lower sep p). unfold slice_from. apply rfind_points_at. lia.
Qed.

Lemma splitext_stem_no_sep b :
  has_char sep b = false -> has_char sep (fst (splitext b)) = false.
Proof.
  intros H. unfold splitext. destruct (_ && _); simpl; [|exact H].
  by apply has_char_take.
Qed.

End PathFacts.

(** X12: the optimizer never writes its result over the mesh it has
    read: the path of the optimized mesh differs from the path of the
    input, whatever that path is. *)
Theorem optimized_path_differs (component : string) :
  OptimizeNet.optimized_path component <> component.
Proof.
  unfold OptimizeNet.optimized_path. intros H.
  set (b := PyStr.basename component) in *.
  assert (Hb : has_char PyStr.sep b = false) by apply PathFacts.basename_no_sep.
  assert (Hn : has_char PyStr.sep (fst (PyStr.splitext b) +:+ "_optimized.vtk") = false).
  { rewrite PathFacts.has_char_app, (PathFacts.splitext_stem_no_sep b Hb). reflexivity. }
  apply (f_equal PyStr.basename) in H.
  rewrite (PathFacts.basename_join _ _ Hn) in H. fold b in H.
  pose proof (PathFacts.splitext_app b) as Hsplit.
  rewrite <- H in Hsplit at 3.
  apply ComponentFacts.append_inj_l in Hsplit.
  clear H. rename Hsplit into H. symmetry in H.
  destruct (PathFacts.splitext_ext b) as [E | [t E]]; rewrite E in H; discriminate.
Qed.

Module NameFacts.
Import PyStr PathFacts.

Lemma uint_no_char c d :
  Ascii.is_nat c = None -> has_char c (NilEmpty.string_of_uint d) = false.
Proof.
  intros Hc. induction d as [|d IH|d IH|d IH|d IH|d IH|d IH|d IH|d IH|d IH|d IH];
    [reflexivity|..];
    cbn [NilEmpty.string_of_uint has_char]; rewrite IH, orb_false_r;
    match goal with
    | |- Ascii.eqb ?k c = false =>
        destruct (Ascii.eqb_spec k c) as [<-|]; [discriminate Hc | reflexivity]
    end.
Qed.

Lemma str_int_no_char c n :
  Ascii.is_nat c = None -> c <> "-"%char -> has_char c (str_int n) = false.
Proof.
  intros Hc Hminus. unfold str_int.
  assert (Hu : forall d, has_char c (NilZero.string_of_uint d) = false).
  { intros d. unfold NilZero.string_of_uint.
    destruct d; try apply (uint_no_char c _ Hc).
    cbn [has_char]. rewrite orb_false_r.
    destruct (Ascii.eqb_spec "0" c) as [<-|]; [discriminate Hc | reflexivity]. }
  destruct (Z.to_int n) as [d|d]; cbn [NilZero.string_of_int]; [apply Hu|].
  cbn [has_char]. rewrite Hu, orb_false_r.
  destruct (Ascii.eqb_spec "-" c) as [<-|]; [congruence | reflexivity].
Qed.

Lemma component_name_no_char c id e :
  Ascii.is_nat c = None -> c <> "-"%char ->
  has_char c "Component" = false -> has_char c e = false ->
  has_char c (component_name id e) = false.
Proof.
  intros Hc Hm Hw He. unfold component_name.
  by rewrite !has_char_app, Hw, (str_int_no_char c id Hc Hm), He.
Qed.

(** [str.replace] passes over a prefix in which the first character of
    the pattern does not occur. *)
Lemma replace_from_skips c o new x y :
  has_char c x = false ->
  replace_from (String c o) new 0 (x +:+ y) = x +:+ replace_from (String c o) new 0 y.
Proof.
  intros H. induction x as [|a x IH]; [reflexivity|].
  cbn [has_char] in H. apply orb_false_iff in H as [Ha H].
  rewrite !app_cons. cbn [replace_from startswith].
  destruct (Ascii.eqb_spec c a) as [->|]; [by rewrite Ascii.eqb_refl in Ha|].
  cbn [andb]. by rewrite (IH H).
Qed.

Lemma smoothed_name id :
  replace ".mha" "_smoothed.mha" (component_name id ".mha")
  = component_name id "_smoothed.mha".
Proof.
  unfold replace, component_name. rewrite <- !app_assoc_s.
  rewrite replace_from_skips; [reflexivity|].
  rewrite has_char_app, (str_int_no_char "." id); by try reflexivity.
Qed.

Lemma mesh_name id :
  replace "_smoothed.mha" ".vtk" (component_name id "_smoothed.mha")
  = component_name id ".vtk".
Proof.
  unfold replace, component_name. rewrite <- !app_assoc_s.
  rewrite replace_from_skips; [reflexivity|].
  rewrite has_char_app, (str_int_no_char "_" id); by try reflexivity.
Qed.

Lemma stem_length_pos id : exists a t, "Component" +:+ str_int id = String a t /\ a <> extsep.
Proof. exists "C"%char, ("omponent" +:+ str_int id). split; [reflexivity | discriminate]. Qed.

(** [os.path.splitext] on a prefix that is a directory part, a stem
    that begins with no dot, and an extension. *)
Lemma splitext_known pre stem e :
  pre = EmptyString \/ (exists y, pre = y +:+ String sep EmptyString) ->
  has_char sep stem = false -> has_char sep e = false -> has_char extsep e = false ->
  (exists a t, stem = String a t /\ a <> extsep) ->
  splitext (pre +:+ stem +:+ String extsep e) = (pre +:+ stem, String extsep e).
Proof.
  intros Hpre Hstem Hse Hde (a & t & Est & Ha).
  assert (Hsep : rfind sep (pre +:+ stem +:+ String extsep e)
                 = Z.of_nat (String.length pre) - 1).
  { rewrite rfind_app_absent
      by (rewrite has_char_app, Hstem; cbn [has_char]; by rewrite Hse).
    destruct Hpre as [-> | [y ->]]; [reflexivity|].
    rewrite (rfind_last sep y EmptyString eq_refl), ComponentFacts.append_length.
    simpl String.length. lia. }
  assert (Hdot : rfind extsep (pre +:+ stem +:+ String extsep e)
                 = Z.of_nat (String.length (pre +:+ stem))).
  { rewrite <- app_assoc_s. by apply rfind_last. }
  unfold splitext. rewrite Hsep, Hdot.
  replace (Z.of_nat (String.length pre) - 1 <? Z.of_nat (String.length (pre +:+ stem)))
    with true by (symmetry; apply Z.ltb_lt; rewrite ComponentFacts.append_length; lia).
  unfold slice_from, slice_to.
  replace (Z.to_nat (Z.of_nat (String.length pre) - 1 + 1)) with (String.length pre) by lia.
  rewrite drop_app_length.
  replace (Z.to_nat (Z.of_nat (String.length (pre +:+ stem))
                     - (Z.of_nat (String.length pre) - 1 + 1)))
    with (String.length stem) by (rewrite ComponentFacts.append_length; lia).
  rewrite Nat2Z.id.
  assert (Hstemmed : has_stem (String.length stem) (stem +:+ String extsep e) = true).
  { rewrite Est, app_cons. cbn [String.length has_stem].
    destruct (Ascii.eqb_spec a extsep); [contradiction | reflexivity]. }
  rewrite Hstemmed. cbn [andb].
  rewrite <- app_assoc_s. by rewrite take_app_length, drop_app_length.
Qed.

Lemma all_char_not c d :
  d <> EmptyString -> endswith_char c d = false ->
  all_char c (d +:+ String c EmptyString) = false.
Proof.
  induction d as [|a d IH]; [congruence|]. intros _ He.
  rewrite app_cons. cbn [all_char].
  destruct d as [|b d].
  - cbn [endswith_char] in He. by rewrite He.
  - rewrite IH; [apply andb_false_r | discriminate | exact He].
Qed.

Lemma rstrip_char_restores c d :
  d <> EmptyString -> endswith_char c d = false ->
  rstrip_char c (d +:+ String c EmptyString) = d.
Proof.
  induction d as [|a d IH]; [congruence|]. intros _ He.
  rewrite app_cons. cbn [rstrip_char].
  destruct d as [|b d].
  - cbn [endswith_char] in He. simpl. by rewrite Ascii.eqb_refl, He.
  - rewrite IH; [reflexivity | discriminate | exact He].
Qed.

(** [os.path.dirname] of a name joined to a folder that is not empty
    and does not end with the separator is that folder. *)
Lemma dirname_join d n :
  d <> EmptyString -> endswith_char sep d = false -> has_char sep n = false ->
  join d n = d +:+ String sep n /\ dirname (join d n) = d.
Proof.
  intros Hd He Hn.
  assert (Hj : join d n = d +:+ String sep n).
  { unfold join. rewrite (startswith_sep_absent _ Hn), He.
    destruct (String.eqb_spec d EmptyString); [contradiction | reflexivity]. }
  split; [exact Hj|]. rewrite Hj. unfold dirname, slice_to.
  rewrite (rfind_last _ _ _ Hn).
  replace (Z.to_nat (Z.of_nat (String.length d) + 1))
    with (String.length (d +:+ String sep EmptyString))
    by (rewrite ComponentFacts.append_length; simpl; lia).
  change (String sep n) with (String sep EmptyString +:+ n).
  rewrite <- app_assoc_s, take_app_length.
  rewrite (all_char_not _ _ Hd He).
  destruct (String.eqb_spec (d +:+ String sep EmptyString) EmptyString) as [E|_].
  - destruct d; discriminate.
  - by apply rstrip_char_restores.
Qed.

Lemma component_name_no_sep id e :
  has_char sep e = false -> has_char sep (component_name id e) = false.
Proof. intros He. by apply component_name_no_char. Qed.

Lemma component_name_stem id e :
  component_name id e = ("Component" +:+ str_int id) +:+ e.
Proof. unfold component_name. by rewrite app_assoc_s. Qed.

Lemma splitext_component pre id e :
  pre = EmptyString \/ (exists y, pre = y +:+ String sep EmptyString) ->
  has_char sep e = false -> has_char extsep e = false ->
  fst (splitext (pre +:+ component_name id (String extsep e)))
  = pre +:+ "Component" +:+ str_int id.
Proof.
  intros Hpre Hse Hde. rewrite component_name_stem.
  rewrite (splitext_known pre ("Component" +:+ str_int id) e Hpre); try assumption.
  - reflexivity.
  - rewrite has_char_app. by rewrite (str_int_no_char sep id).
  - apply stem_length_pos.
Qed.

End NameFacts.

(** X13: the file the mesh generator looks for, derived from the path
    of a component as the extractor names it, is the file the smoother
    writes for that component when its output folder is the extractor's:
    [<folder>/Component<id>_smoothed.mha]. *)
Theorem mesh_generator_finds_smoothed_component (out : string) (id : Z) :
  Filter.smoothed_path out (Segment.component_path out id)
  = PyStr.join out (component_name id "_smoothed.mha") /\
  GenerateNet.smoothed_file_of (Segment.component_path out id)
  = Filter.smoothed_path out (Segment.component_path out id).
Proof.
  assert (Hpath : Segment.component_path out id = PyStr.join out (component_name id ".mha"))
    by reflexivity.
  assert (Hsmoothed : Filter.smoothed_path out (Segment.component_path out id)
                      = PyStr.join out (component_name id "_smoothed.mha")).
  { unfold Filter.smoothed_path. rewrite Hpath.
    rewrite PathFacts.basename_join by (by apply NameFacts.component_name_no_sep).
    by rewrite NameFacts.smoothed_name. }
  split; [exact Hsmoothed|]. rewrite Hsmoothed.
  unfold GenerateNet.smoothed_file_of. rewrite Hpath.
  destruct (PathFacts.join_prefix out) as (pre & Hpre & Hjoin).
  rewrite !Hjoin by (by apply NameFacts.component_name_no_sep).
  pose proof (NameFacts.splitext_component pre id "mha" Hpre eq_refl eq_refl) as Hs.
  change (String PyStr.extsep "mha") with ".mha" in Hs. rewrite Hs.
  rewrite !PathFacts.app_assoc_s. reflexivity.
Qed.

(** X14: in a folder whose path is not empty and ends with no slash,
    the mesh of component [id] is written to [<folder>/Component<id>.vtk]
    and its optimized mesh to [<folder>/Component<id>_optimized.vtk]. *)
Theorem component_file_names (out : string) (id : Z) :
  out <> EmptyString -> PyStr.endswith_char PyStr.sep out = false ->
  GenerateNet.output_file_of (Segment.component_path out id)
  = PyStr.join out (component_name id ".vtk") /\
  OptimizeNet.optimized_path (PyStr.join out (component_name id ".vtk"))
  = PyStr.join out (component_name id "_optimized.vtk").
Proof.
  intros Hout Hend.
  assert (Hpath : Segment.component_path out id = PyStr.join out (component_name id ".mha"))
    by reflexivity.
  assert (Hdir : forall e, has_char PyStr.sep e = false ->
            PyStr.join out (component_name id e) = out +:+ String PyStr.sep (component_name id e) /\
            PyStr.dirname (PyStr.join out (component_name id e)) = out).
  { intros e He. apply NameFacts.dirname_join; try assumption.
    by apply NameFacts.component_name_no_sep. }
  assert (Hpre : (out +:+ String PyStr.sep EmptyString) = EmptyString \/
                 exists y, out +:+ String PyStr.sep EmptyString
                           = y +:+ String PyStr.sep EmptyString)
    by (right; by exists out).
  split.
  - unfold GenerateNet.output_file_of, GenerateNet.smoothed_file_of. rewrite Hpath.
    destruct (Hdir ".mha" eq_refl) as [Hj ->]. rewrite Hj.
    change (out +:+ String PyStr.sep (component_name id ".mha"))
      with (out +:+ (String PyStr.sep EmptyString +:+ component_name id ".mha")).
    rewrite <- PathFacts.app_assoc_s.
    pose proof (NameFacts.splitext_component _ id "mha" Hpre eq_refl eq_refl) as Hs.
    change (String PyStr.extsep "mha") with ".mha" in Hs. rewrite Hs. clear Hs.
    rewrite !PathFacts.app_assoc_s.
    change ("Component" +:+ PyStr.str_int id +:+ "_smoothed.mha")
      with (component_name id "_smoothed.mha").
    rewrite <- PathFacts.app_assoc_s.
    rewrite (PathFacts.basename_prefixed _ _ Hpre)
      by (by apply NameFacts.component_name_no_sep).
    by rewrite NameFacts.mesh_name.
  - unfold OptimizeNet.optimized_path.
    destruct (Hdir ".vtk" eq_refl) as [_ ->].
    rewrite PathFacts.basename_join by (by apply NameFacts.component_name_no_sep).
    pose proof (NameFacts.splitext_component EmptyString id "vtk" (or_introl eq_refl)
                  eq_refl eq_refl) as Hs.
    change (EmptyString +:+ component_name id (String PyStr.extsep "vtk"))
      with (component_name id ".vtk") in Hs.
    rewrite Hs. reflexivity.
Qed.

Lemma component_file_names_witness :
  GenerateNet.output_file_of (Segment.component_path "/out" 3) = "/out/Component3.vtk" /\
  OptimizeNet.optimized_path "/out/Component3.vtk" = "/out/Component3_optimized.vtk".
Proof.
  apply (component_file_names "/out" 3); [discriminate | reflexivity].
Defined.

(** X15: when the threshold exceeds the voxel count of every id the
    loop runs over, the extractor asks nothing, writes nothing and
    prints nothing, whatever the output folder holds, and ends with
    status 0. *)
Theorem threshold_above_every_count
    (input_file out : string) (size : Z) (st : Process) (a : list Z) :
  Segment.read_array input_file st = (Ok a, st) ->
  length (Segment.np_unique a) <> 1%nat ->
  (forall id, In id (component_ids a) -> voxel_count a id < size) ->
  Segment.extract_connected_components input_file out size st = (SysExit 0, st).
Proof.
  intros Hread Hlen Hsmall.
  rewrite (SegmentFacts.extract_unfold _ _ _ _ _ Hread).
  replace (Z.of_nat (length (Segment.np_unique a)) - 1 =? 0) with false
    by (symmetry; apply Z.eqb_neq; lia).
  fold (component_ids a).
  assert (Hloop : forall ids acc,
            (forall id, In id ids -> voxel_count a id < size) ->
            Segment.for_components a out size ids acc st = (Ok acc, st)).
  { induction ids as [|id ids IH]; intros acc H; [reflexivity|].
    simpl. unfold bind. rewrite ExtractionFacts.process_component_cases.
    replace (size <=? voxel_count a id) with false
      by (symmetry; apply Z.leb_gt, H; by left).
    apply IH. intros j Hj. apply H. by right. }
  by rewrite (Hloop _ [] Hsmall).
Qed.

Lemma threshold_above_every_count_witness :
  Segment.extract_connected_components "/in/v.mha" "/out" 4 three_labels
  = (SysExit 0, three_labels).
Proof.
  apply (threshold_above_every_count "/in/v.mha" "/out" 4 three_labels
           [0; 1; 1; 1; 2; 3; 3]).
  - reflexivity.
  - vm_compute. discriminate.
  - intros id Hid. vm_compute in Hid.
    repeat (destruct Hid as [<- | Hid]; [vm_compute; reflexivity|]). destruct Hid.
Defined.

(** X16: whatever the folders are, the artifacts of component [id] are
    named [Component<id>.mha], [Component<id>_smoothed.mha],
    [Component<id>.vtk] and [Component<id>_optimized.vtk]: each stage
    derives the name of its output from the name it is given. *)
Theorem artifact_names (out smoothing_folder : string) (id : Z) :
  let component := Segment.component_path out id in
  let mesh := GenerateNet.output_file_of component in
  PyStr.basename component = component_name id ".mha" /\
  PyStr.basename (Filter.smoothed_path smoothing_folder component)
  = component_name id "_smoothed.mha" /\
  PyStr.basename mesh = component_name id ".vtk" /\
  PyStr.basename (OptimizeNet.optimized_path mesh) = component_name id "_optimized.vtk".
Proof.
  cbv zeta.
  assert (Hpath : Segment.component_path out id = PyStr.join out (component_name id ".mha"))
    by reflexivity.
  assert (Hbase : PyStr.basename (Segment.component_path out id) = component_name id ".mha").
  { rewrite Hpath. apply PathFacts.basename_join. by apply NameFacts.component_name_no_sep. }
  assert (Hmesh : PyStr.basename (GenerateNet.output_file_of (Segment.component_path out id))
                  = component_name id ".vtk").
  { unfold GenerateNet.output_file_of, GenerateNet.smoothed_file_of.
    assert (Hs : PyStr.basename (fst (PyStr.splitext (Segment.component_path out id))
                                 +:+ "_smoothed.mha")
                 = component_name id "_smoothed.mha").
    { rewrite Hpath. destruct (PathFacts.join_prefix out) as (pre & Hpre & Hjoin).
      rewrite Hjoin by (by apply NameFacts.component_name_no_sep).
      pose proof (NameFacts.splitext_component pre id "mha" Hpre eq_refl eq_refl) as Hs.
      change (String PyStr.extsep "mha") with ".mha" in Hs. rewrite Hs.
      rewrite !PathFacts.app_assoc_s.
      apply (PathFacts.basename_prefixed pre _ Hpre).
      by apply (NameFacts.component_name_no_sep id "_smoothed.mha"). }
    rewrite Hs, NameFacts.mesh_name.
    apply PathFacts.basename_join. by apply NameFacts.component_name_no_sep. }
  split; [exact Hbase|]. split; [|split; [exact Hmesh|]].
  - unfold Filter.smoothed_path. rewrite Hbase, NameFacts.smoothed_name.
    apply PathFacts.basename_join. by apply NameFacts.component_name_no_sep.
  - unfold OptimizeNet.optimized_path. rewrite Hmesh.
    pose proof (NameFacts.splitext_component EmptyString id "vtk" (or_introl eq_refl)
                  eq_refl eq_refl) as Hs.
    change (EmptyString +:+ component_name id (String PyStr.extsep "vtk"))
      with (component_name id ".vtk") in Hs.
    rewrite Hs.
    apply PathFacts.basename_join.
    by apply (NameFacts.component_name_no_sep id "_optimized.vtk").
Qed.
